(** * protobuf_distutils: the protoc command of the Python build

    A shallow embedding of
    [python/protobuf_distutils/protobuf_distutils/protoc_command_base.py]
    ([ProtocCommandBase]) and [generate_py_protobufs.py]
    ([generate_py_protobufs]).

    Python strings are [string]; the command object is a record that is
    threaded through a small state-and-exception monad, since the Python
    methods mutate [self] and raise.  The operating system (directory
    listings, [isdir], the environment, the spawned process) is an explicit
    [World] value.  The pieces of Python's standard library the command
    calls ([str.startswith], [str.partition], [os.path.normpath],
    [os.path.join], [os.path.split], [fnmatch], [glob.glob]) are modelled
    after their POSIX implementations, under the names they have there. *)

From Stdlib Require Import String Ascii List Bool Arith Lia Permutation.
Import ListNotations.
Open Scope list_scope.
Open Scope string_scope.

(** ** Python [str] methods *)

(** [s.startswith(p)] *)
Fixpoint startswith (s p : string) {struct p} : bool :=
  match p with
  | "" => true
  | String b p' =>
      match s with
      | "" => false
      | String a s' => Ascii.eqb a b && startswith s' p'
      end
  end.

(** [s[n:]] *)
Fixpoint drop (n : nat) (s : string) : string :=
  match n, s with
  | 0, _ => s
  | S _, "" => ""
  | S n', String _ s' => drop n' s'
  end.

(** [s.find(sep)] together with the two slices around the match: the text
    before the first (leftmost) occurrence of [sep] in [s] and the text
    after it; [None] when [sep] does not occur. *)
Fixpoint find_split (s sep : string) : option (string * string) :=
  if startswith s sep then Some ("", drop (String.length sep) s)
  else
    match s with
    | "" => None
    | String c s' =>
        match find_split s' sep with
        | Some (before, after) => Some (String c before, after)
        | None => None
        end
    end.

(** [s.partition(sep)], for a non-empty [sep] (Python raises [ValueError]
    on an empty separator; every separator of this program is non-empty). *)
Definition partition (s sep : string) : string * string * string :=
  match find_split s sep with
  | Some (before, after) => (before, sep, after)
  | None => (s, "", "")
  end.

(** [t[-1]] of the triple [str.partition] returns. *)
Definition last3 (t : string * string * string) : string := snd t.

(** [s.endswith(suf)] *)
Fixpoint endswith (s suf : string) : bool :=
  (s =? suf)
  || match s with
     | "" => false
     | String _ s' => endswith s' suf
     end.

(** [s.split('/')] *)
Fixpoint split_sep (s : string) : list string :=
  match s with
  | "" => [""]
  | String c s' =>
      match split_sep s' with
      | [] => [String c ""]
      | w :: ws => if Ascii.eqb c "/" then "" :: w :: ws else String c w :: ws
      end
  end.

(** ['/'.join(l)] *)
Fixpoint join_sep (l : list string) : string :=
  match l with
  | [] => ""
  | [w] => w
  | w :: ws => w ++ "/" ++ join_sep ws
  end.

(** [s.rstrip('/')] *)
Fixpoint rstrip_sep (s : string) : string :=
  match s with
  | "" => ""
  | String c s' =>
      match rstrip_sep s' with
      | "" => if Ascii.eqb c "/" then "" else String c ""
      | r => String c r
      end
  end.

(** ** [os.path] on POSIX ([posixpath]) *)

Module os_path.

Definition sep : string := "/".

(** [posixpath.normpath] *)
Definition normpath_step (initial_slashes : nat)
    (new_comps : list string) (comp : string) : list string :=
  if (comp =? "") || (comp =? ".") then new_comps
  else if negb (comp =? "..")
          || ((initial_slashes =? 0)%nat && (List.length new_comps =? 0)%nat)
          || (negb (List.length new_comps =? 0)%nat && (last new_comps "" =? ".."))
       then new_comps ++ [comp]
  else if negb (List.length new_comps =? 0)%nat then removelast new_comps
  else new_comps.

Definition normpath (path : string) : string :=
  if path =? "" then "."
  else
    let initial_slashes :=
      if startswith path sep then
        if startswith path (sep ++ sep)
           && negb (startswith path (sep ++ sep ++ sep))
        then 2 else 1
      else 0 in
    let comps := split_sep path in
    let new_comps := fold_left (normpath_step initial_slashes) comps [] in
    let path := join_sep new_comps in
    let path := String.concat "" (repeat sep initial_slashes) ++ path in
    if path =? "" then "." else path.

(** [posixpath.join(a, *p)] *)
Definition join_step (path b : string) : string :=
  if startswith b sep then b
  else if (path =? "") || endswith path sep then path ++ b
  else path ++ sep ++ b.

Definition join (a : string) (p : list string) : string :=
  fold_left join_step p a.

(** [p[:i], p[i:]] for [i = p.rfind('/') + 1] *)
Fixpoint rsplit_sep (p : string) : string * string :=
  match p with
  | "" => ("", "")
  | String c p' =>
      match rsplit_sep p' with
      | ("", tail) =>
          if Ascii.eqb c "/" then (String c "", tail) else ("", String c tail)
      | (head, tail) => (String c head, tail)
      end
  end.

(** [posixpath.split]: the head loses its trailing slashes unless it
    consists of slashes only. *)
Definition split (p : string) : string * string :=
  let (head, tail) := rsplit_sep p in
  let head :=
    if negb (head =? "") && negb (rstrip_sep head =? "")
    then rstrip_sep head else head in
  (head, tail).

End os_path.


(** ** [fnmatch] *)

Module fnmatch.

(** Whether [name] matches the shell pattern [pat], for a pattern without
    bracket expressions: [*] stands for any run of characters (newlines
    and leading dots included, as in the regular expression
    [fnmatch.translate] builds), [?] for one character, every other
    character for itself.  The match is of the whole name. *)
Fixpoint matches (pat name : string) : bool :=
  match pat with
  | "" => name =? ""
  | String p pat' =>
      if Ascii.eqb p "*" then
        (fix star (name : string) : bool :=
           matches pat' name
           || match name with
              | "" => false
              | String _ name' => star name'
              end) name
      else
        match name with
        | "" => false
        | String c name' =>
            (Ascii.eqb p "?" || Ascii.eqb p c) && matches pat' name'
        end
  end.

(** A pattern with a [[] may hold a bracket expression, which this model
    does not cover. *)
Fixpoint has_bracket (pat : string) : bool :=
  match pat with
  | "" => false
  | String c pat' => Ascii.eqb c "[" || has_bracket pat'
  end.

(** [fnmatch.filter(names, pat)] ([os.path.normcase] is the identity on
    POSIX); [None] for a pattern outside the modelled fragment. *)
Definition filter (names : list string) (pat : string)
  : option (list string) :=
  if has_bracket pat then None else Some (List.filter (matches pat) names).

End fnmatch.

(** ** The file system *)

(** An [os.DirEntry]: its [name] and what [is_dir()] answers. *)
Record dirent : Type := { d_name : string; d_is_dir : bool }.

(** What the program asks of the file system.  [os_scandir] answers with
    the empty list where [os.scandir] raises [OSError] (the path is
    missing or not a directory): [glob] swallows that error. *)
Record filesys : Type := {
  os_scandir : string -> list dirent;
  os_path_isdir : string -> bool;
  os_path_exists : string -> bool;
  os_path_lexists : string -> bool
}.

(** A directory tree, to build concrete file systems from. *)
#[local] Set Warnings "-register-all".
Inductive node : Type :=
| File
| Dir (entries : list (string * node)).

Fixpoint lookup_entry (name : string) (entries : list (string * node))
  : option node :=
  match entries with
  | [] => None
  | (n, x) :: rest => if n =? name then Some x else lookup_entry name rest
  end.

(** Path resolution over the components of a path: [cur] is the directory
    reached so far and [up] its ancestors, nearest first. *)
Fixpoint walk (comps : list string) (cur : node) (up : list node)
  : option node :=
  match comps with
  | [] => Some cur
  | c :: rest =>
      match cur with
      | File => None
      | Dir entries =>
          if (c =? "") || (c =? ".") then walk rest cur up
          else if c =? ".." then
            match up with
            | [] => walk rest cur []
            | parent :: up' => walk rest parent up'
            end
          else
            match lookup_entry c entries with
            | None => None
            | Some x => walk rest x (cur :: up)
            end
      end
  end.

(** The node a path names in the tree [root]; the working directory is the
    root of the tree, and the empty path names nothing. *)
Definition resolve (root : node) (path : string) : option node :=
  if path =? "" then None else walk (split_sep path) root [].

Definition is_dir_node (x : node) : bool :=
  match x with
  | Dir _ => true
  | File => false
  end.

(** The file system a tree stands for (it has no symbolic links, so
    [exists] and [lexists] agree). *)
Definition fs_of_tree (root : node) : filesys :=
  {| os_scandir := fun path =>
       match resolve root path with
       | Some (Dir entries) =>
           map (fun e => {| d_name := fst e; d_is_dir := is_dir_node (snd e) |})
               entries
       | _ => []
       end;
     os_path_isdir := fun path =>
       match resolve root path with
       | Some (Dir _) => true
       | _ => false
       end;
     os_path_exists := fun path =>
       match resolve root path with
       | Some _ => true
       | None => false
       end;
     os_path_lexists := fun path =>
       match resolve root path with
       | Some _ => true
       | None => false
       end |}.

(** ** [glob] *)

Module glob.

(** [glob.has_magic]: the pattern holds one of [*], [?], [[]. *)
Fixpoint has_magic (s : string) : bool :=
  match s with
  | "" => false
  | String c s' =>
      Ascii.eqb c "*" || Ascii.eqb c "?" || Ascii.eqb c "[" || has_magic s'
  end.

(** [glob._ishidden] *)
Definition ishidden (path : string) : bool :=
  match path with
  | String c _ => Ascii.eqb c "."
  | "" => false
  end.

(** [glob._iterdir] (and [_listdir]): the names in a directory, only
    those of directories when [dironly]. *)
Definition iterdir (fs : filesys) (dirname : string) (dironly : bool)
  : list string :=
  let dirname := if dirname =? "" then "." else dirname in
  map d_name
      (List.filter (fun entry => negb dironly || d_is_dir entry)
                   (os_scandir fs dirname)).

(** [glob._glob1] *)
Definition glob1 (fs : filesys) (dirname pattern : string) (dironly : bool)
  : option (list string) :=
  let names := iterdir fs dirname dironly in
  let names :=
    if ishidden pattern then names
    else List.filter (fun x => negb (ishidden x)) names in
  fnmatch.filter names pattern.

(** [glob._glob0] *)
Definition glob0 (fs : filesys) (dirname basename : string) (dironly : bool)
  : list string :=
  if basename =? "" then
    if os_path_isdir fs dirname then [basename] else []
  else
    if os_path_lexists fs (os_path.join dirname [basename])
    then [basename] else [].

Definition glob_in_dir (fs : filesys) (dirname basename : string)
    (dironly : bool) : option (list string) :=
  if has_magic basename then glob1 fs dirname basename dironly
  else Some (glob0 fs dirname basename dironly).

(** The loop [for dirname in dirs: for name in glob_in_dir(...): yield
    os.path.join(dirname, name)]. *)
Fixpoint in_dirs (fs : filesys) (dirs : list string) (basename : string)
    (dironly : bool) : option (list string) :=
  match dirs with
  | [] => Some []
  | dirname :: dirs' =>
      match glob_in_dir fs dirname basename dironly with
      | None => None
      | Some names =>
          match in_dirs fs dirs' basename dironly with
          | None => None
          | Some rest =>
              Some (map (fun name => os_path.join dirname [name]) names
                        ++ rest)%list
          end
      end
  end.

(** [glob._iglob] with [recursive=False].  The recursion is on the
    directory part of the pattern, which is shorter than the pattern;
    [fuel] bounds it, and [None] is also the answer when it runs out. *)
Fixpoint iglob (fuel : nat) (fs : filesys) (pathname : string)
    (dironly : bool) : option (list string) :=
  match fuel with
  | 0 => None
  | S fuel' =>
      let (dirname, basename) := os_path.split pathname in
      if negb (has_magic pathname) then
        if negb (basename =? "") then
          Some (if os_path_lexists fs pathname then [pathname] else [])
        else
          Some (if os_path_isdir fs dirname then [pathname] else [])
      else if dirname =? "" then
        glob1 fs dirname basename dironly
      else
        match
          (if negb (dirname =? pathname) && has_magic dirname
           then iglob fuel' fs dirname true
           else Some [dirname])
        with
        | None => None
        | Some dirs => in_dirs fs dirs basename dironly
        end
  end.

(** [glob.glob(pathname)]: [recursive] keeps its default, [False], so a
    [**] component is an ordinary [*]. *)
Definition glob (fs : filesys) (pathname : string) : option (list string) :=
  iglob (S (String.length pathname)) fs pathname false.

End glob.

(** ** The command object and its world *)

(** The attributes [initialize_options] sets.  The list options hold lists
    of strings, as [initialize_options] and a setup script set them
    ([ensure_string_list] leaves such a value as it is); the string a
    command-line option holds before [ensure_string_list] splits it is no
    value of this record.  [output_dir] holds a string. *)
Record Command : Type := {
  source_dir : option string;
  output_dir : string;
  proto_root_path : option string;
  include_dirs : option (list string);
  proto_paths : list string;
  extra_proto_paths : list string;
  proto_files : option (list string);
  recurse : option bool;
  protoc : option string
}.

Definition with_proto_root_path (v : option string) (self : Command) :=
  {| source_dir := source_dir self; output_dir := output_dir self;
     proto_root_path := v; include_dirs := include_dirs self;
     proto_paths := proto_paths self;
     extra_proto_paths := extra_proto_paths self;
     proto_files := proto_files self; recurse := recurse self;
     protoc := protoc self |}.

Definition with_include_dirs (v : option (list string)) (self : Command) :=
  {| source_dir := source_dir self; output_dir := output_dir self;
     proto_root_path := proto_root_path self; include_dirs := v;
     proto_paths := proto_paths self;
     extra_proto_paths := extra_proto_paths self;
     proto_files := proto_files self; recurse := recurse self;
     protoc := protoc self |}.

Definition with_proto_paths (v : list string) (self : Command) :=
  {| source_dir := source_dir self; output_dir := output_dir self;
     proto_root_path := proto_root_path self;
     include_dirs := include_dirs self; proto_paths := v;
     extra_proto_paths := extra_proto_paths self;
     proto_files := proto_files self; recurse := recurse self;
     protoc := protoc self |}.

Definition with_proto_files (v : option (list string)) (self : Command) :=
  {| source_dir := source_dir self; output_dir := output_dir self;
     proto_root_path := proto_root_path self;
     include_dirs := include_dirs self; proto_paths := proto_paths self;
     extra_proto_paths := extra_proto_paths self;
     proto_files := v; recurse := recurse self; protoc := protoc self |}.

Definition with_recurse (v : option bool) (self : Command) :=
  {| source_dir := source_dir self; output_dir := output_dir self;
     proto_root_path := proto_root_path self;
     include_dirs := include_dirs self; proto_paths := proto_paths self;
     extra_proto_paths := extra_proto_paths self;
     proto_files := proto_files self; recurse := v; protoc := protoc self |}.

Definition with_protoc (v : option string) (self : Command) :=
  {| source_dir := source_dir self; output_dir := output_dir self;
     proto_root_path := proto_root_path self;
     include_dirs := include_dirs self; proto_paths := proto_paths self;
     extra_proto_paths := extra_proto_paths self;
     proto_files := proto_files self; recurse := recurse self; protoc := v |}.

(** Everything outside the command object that the command reads. *)
Record World : Type := {
  fs : filesys;
  (** [os.getenv('PROTOC')] *)
  getenv_PROTOC : option string;
  (** [include_dirs] of the finalized [build_ext] command *)
  build_ext_include_dirs : option (list string);
  (** [spawn.find_executable('protoc')] *)
  find_executable_protoc : option string;
  (** the exit status of the process run with an argument list *)
  exit_status : list string -> nat
}.

(** Python exceptions. *)
Inductive exn : Type :=
| DistutilsOptionError (msg : string) (paths : list string)
| DistutilsExecError (msg : string)
| TypeError
| AttributeError.

(** The result of a call: a value, an exception, or [Unmodelled] where the
    program leaves the modelled fragment of [glob]. *)
Inductive outcome (A : Type) : Type :=
| Ok (a : A)
| Raise (e : exn)
| Unmodelled.
Arguments Ok {A} a.
Arguments Raise {A} e.
Arguments Unmodelled {A}.

(** What the command does to the outside, in order. *)
Inductive event : Type :=
| Announce (msg : string) (level : nat)
| Warn (msg : string)
| Spawn (argv : list string).

(** ** The monad of the methods

    A method reads and writes the command object, appends to the trace of
    events, and returns or raises.  What it wrote before raising stays
    written, as in Python. *)

Definition state : Type := Command * list event.

Definition M (A : Type) : Type := state -> outcome A * state.

Definition ret {A : Type} (a : A) : M A := fun st => (Ok a, st).

Definition bind {A B : Type} (m : M A) (k : A -> M B) : M B :=
  fun st =>
    match m st with
    | (Ok a, st') => k a st'
    | (Raise e, st') => (Raise e, st')
    | (Unmodelled, st') => (Unmodelled, st')
    end.

Notation "x <- m ;; k" := (bind m (fun x => k))
  (at level 61, m at next level, right associativity).
Notation "m ;; k" := (bind m (fun _ => k))
  (at level 61, right associativity).

Definition raise {A : Type} (e : exn) : M A := fun st => (Raise e, st).

(** A call of a method that does not write to [self]. *)
Definition lift {A : Type} (r : outcome A) : M A := fun st => (r, st).

Definition get_self : M Command := fun st => (Ok (fst st), st).

Definition modify (f : Command -> Command) : M unit :=
  fun st => (Ok tt, (f (fst st), snd st)).

Definition emit (e : event) : M unit :=
  fun st => (Ok tt, (fst st, (snd st ++ [e])%list)).

(** ** [distutils.cmd.Command] helpers *)

(** [self.set_undefined_options('build_ext', ('include_dirs',
    'include_dirs'))]: an option still [None] takes the value the
    finalized [build_ext] command has. *)
Definition set_undefined_options (w : World) : M unit :=
  self <- get_self ;;
  match include_dirs self with
  | None => modify (with_include_dirs (build_ext_include_dirs w))
  | Some _ => ret tt
  end.

(** [self.ensure_dirname(option)], with [opt] the name of the option and
    [getattr] its reader: a value that is not [None] must name an
    existing directory. *)
Definition ensure_dirname (w : World) (opt : string)
    (getattr : Command -> option string) : M unit :=
  self <- get_self ;;
  match getattr self with
  | None => ret tt
  | Some val =>
      if os_path_isdir (fs w) val then ret tt
      else raise (DistutilsOptionError
                    ("error in '" ++ opt ++ "' option: '" ++ val
                     ++ "' does not exist or is not a directory") [])
  end.

(** [self.ensure_string_list(option)]: [None] and a list of strings are left
    as they are.  The two other cases of the method are no values of the
    list options of [Command]: a string, which it splits at commas and
    white space, and a list with an item that is no string, which it
    rejects with a [DistutilsOptionError]. *)
Definition ensure_string_list (opt : string)
    (getattr : Command -> option (list string)) : M unit :=
  self <- get_self ;;
  match getattr self with
  | None => ret tt
  | Some _ => ret tt
  end.

(** [self.announce(msg, level)] and [self.warn(msg)] *)
Definition announce (msg : string) (level : nat) : M unit :=
  emit (Announce msg level).

Definition warn (msg : string) : M unit := emit (Warn msg).

(** [distutils.spawn.spawn(cmd, search_path=0)]: the process is run and a
    non-zero exit status is a [DistutilsExecError]. *)
Definition spawn (w : World) (cmd : list string) : M unit :=
  emit (Spawn cmd) ;;
  if (exit_status w cmd =? 0)%nat then ret tt
  else raise (DistutilsExecError "command failed").

(** ** [ProtocCommandBase] *)

Module ProtocCommandBase.

(** [initialize_options] *)
Definition initialize_options : Command :=
  {| source_dir := None; output_dir := "."; proto_root_path := None;
     include_dirs := None; proto_paths := []; extra_proto_paths := [];
     proto_files := None; recurse := None; protoc := None |}.

(** The test of the loop of [ensure_proto_path_list]: the entry goes to
    [invalid_paths]. *)
Definition invalid_proto_path (w : World) (proto_path : string) : bool :=
  let '(virtpath, sep, realpath) := partition proto_path "=" in
  if sep =? "" then negb (os_path_isdir (fs w) proto_path)
  else negb (os_path_exists (fs w) realpath).

(** [ensure_proto_path_list(option)] *)
Definition ensure_proto_path_list (w : World) (opt : string)
    (getattr : Command -> option (list string)) : M unit :=
  ensure_string_list opt getattr ;;
  self <- get_self ;;
  match getattr self with
  | None => ret tt
  | Some value =>
      let invalid_paths := List.filter (invalid_proto_path w) value in
      match invalid_paths with
      | [] => ret tt
      | _ :: _ =>
          raise (DistutilsOptionError ("invalid " ++ opt ++ " entry")
                                      invalid_paths)
      end
  end.

(** The body of the loop of [compute_proto_root_path]. *)
Definition root_step (proto_root_path root_candidate : string) : string :=
  let root_candidate := os_path.normpath root_candidate in
  if startswith proto_root_path root_candidate then root_candidate
  else proto_root_path.

(** [compute_proto_root_path]; [os.path.normpath(None)] is a
    [TypeError]. *)
Definition compute_proto_root_path (self : Command) : outcome string :=
  match source_dir self with
  | None => Raise TypeError
  | Some source_dir =>
      Ok (fold_left root_step
                    (proto_paths self ++ extra_proto_paths self)%list
                    (os_path.normpath source_dir))
  end.

(** The files [find_proto_files] globs, before they are made relative:
    [None] where a pattern leaves the modelled fragment of [glob]. *)
Definition glob_proto_files (w : World) (source_dir : string)
    (recurse : option bool) : option (list string) :=
  match glob.glob (fs w) (os_path.join source_dir ["*.proto"]) with
  | None => None
  | Some files =>
      match recurse with
      | Some true =>
          let ext_glob := os_path.join source_dir ["**"; "*.proto"] in
          match glob.glob (fs w) ext_glob with
          | None => None
          | Some more => Some (files ++ more)%list
          end
      | _ => Some files
      end
  end.

(** [f.partition(self.proto_root_path + os.path.sep)[-1]] *)
Definition relative_to (proto_root_path f : string) : string :=
  last3 (partition f (proto_root_path ++ os_path.sep)).

(** [find_proto_files].  [os.path.join(None, ...)] is a [TypeError], and
    so is [None + os.path.sep], which the comprehension evaluates once
    per file. *)
Definition find_proto_files (w : World) (self : Command)
  : outcome (list string) :=
  match source_dir self with
  | None => Raise TypeError
  | Some source_dir =>
      match glob_proto_files w source_dir (recurse self) with
      | None => Unmodelled
      | Some [] => Ok []
      | Some files =>
          match proto_root_path self with
          | None => Raise TypeError
          | Some root => Ok (map (relative_to root) files)
          end
      end
  end.

(** [finalize_options] *)
Definition finalize_options (w : World) : M unit :=
  set_undefined_options w ;;
  ensure_dirname w "source_dir" source_dir ;;
  ensure_dirname w "output_dir" (fun self => Some (output_dir self)) ;;
  self <- get_self ;;
  match include_dirs self with
  | Some dirs =>
      ensure_proto_path_list w "include_dirs" include_dirs ;;
      modify (fun self => with_proto_paths (dirs ++ proto_paths self)%list self)
  | None => ret tt
  end ;;
  ensure_proto_path_list w "proto_paths"
                         (fun self => Some (proto_paths self)) ;;
  ensure_proto_path_list w "extra_proto_paths"
                         (fun self => Some (extra_proto_paths self)) ;;
  self <- get_self ;;
  match proto_root_path self with
  | None =>
      root <- lift (compute_proto_root_path self) ;;
      modify (with_proto_root_path (Some root)) ;;
      if match source_dir self with
         | Some s => negb (root =? s)
         | None => true
         end
      then announce ("using computed proto_root_path: " ++ root) 2
      else ret tt
  | Some _ => ret tt
  end ;;
  ensure_dirname w "proto_root_path" proto_root_path ;;
  self <- get_self ;;
  match source_dir self, proto_root_path self with
  | None, _ => raise AttributeError
  | Some _, None => raise TypeError
  | Some s, Some root =>
      if negb (startswith s root) then
        raise (DistutilsOptionError
                 ("source_dir " ++ s ++ " is not under proto_root_path "
                  ++ root) [])
      else ret tt
  end ;;
  self <- get_self ;;
  match recurse self with
  | None => modify (with_recurse (Some true))
  | Some _ => ret tt
  end ;;
  self <- get_self ;;
  match proto_files self with
  | None =>
      files <- lift (find_proto_files w self) ;;
      modify (with_proto_files (Some files)) ;;
      match files with
      | [] =>
          match source_dir self with
          | Some s => warn ("no .proto files were found under " ++ s)
          | None => raise TypeError
          end
      | _ :: _ => ret tt
      end
  | Some _ => ret tt
  end ;;
  self <- get_self ;;
  match protoc self with
  | None => modify (with_protoc (getenv_PROTOC w))
  | Some _ => ret tt
  end.

(** [run_protoc(args)].  Concatenating [None] to a string or to a list is
    a [TypeError], and so is spawning a command whose name is [None]. *)
Definition run_protoc (w : World) (args : list string) : M unit :=
  self <- get_self ;;
  match proto_root_path self with
  | None => raise TypeError
  | Some root =>
      let proto_paths :=
        map (fun x => "--proto_path=" ++ x) (root :: proto_paths self) in
      match protoc self with
      | None => modify (with_protoc (find_executable_protoc w))
      | Some _ => ret tt
      end ;;
      self <- get_self ;;
      match proto_files self with
      | None => raise TypeError
      | Some files =>
          match protoc self with
          | None => raise TypeError
          | Some exe => spawn w (exe :: proto_paths ++ args ++ files)%list
          end
      end
  end.

End ProtocCommandBase.

(** ** [generate_py_protobufs] *)

Module generate_py_protobufs.

(** [initialize_options] *)
Definition initialize_options : Command :=
  let self := ProtocCommandBase.initialize_options in
  {| source_dir := source_dir self; output_dir := ".";
     proto_root_path := proto_root_path self;
     include_dirs := include_dirs self; proto_paths := [];
     extra_proto_paths := []; proto_files := proto_files self;
     recurse := recurse self; protoc := protoc self |}.

(** [finalize_options]: the loop appends every extra path to
    [proto_paths]. *)
Definition finalize_options (w : World) : M unit :=
  ProtocCommandBase.finalize_options w ;;
  ensure_string_list "extra_proto_paths"
                     (fun self => Some (extra_proto_paths self)) ;;
  modify (fun self =>
            with_proto_paths
              (proto_paths self ++ extra_proto_paths self)%list self) ;;
  ensure_dirname w "output_dir" (fun self => Some (output_dir self)).

(** [run] *)
Definition run (w : World) : M unit :=
  self <- get_self ;;
  ProtocCommandBase.run_protoc w ["--python_out=" ++ output_dir self].

(** [Distribution.run_command]: the command is finalized, then run. *)
Definition run_command (w : World) : M unit :=
  finalize_options w ;; run w.

End generate_py_protobufs.

(** ** Concrete inputs

    A small tree to try the definitions on: the example of the comment in
    [compute_proto_root_path] ([a/b/c/d/foo.proto] under the search path
    [a/b]), a file two levels below the source directory, a hidden file, a
    directory whose name ends in [.proto], and a directory [ab] beside
    [a]. *)

Definition example_tree : node :=
  Dir [("a", Dir [("b", Dir [("c", Dir [
         ("d", Dir [("foo.proto", File);
                    ("e", Dir [("deep.proto", File)])]);
         ("top.proto", File);
         (".hidden.proto", File);
         ("dir.proto", Dir [("in.proto", File)])])])]);
       ("x", Dir [("y", Dir [])]);
       ("ab", Dir [("x.proto", File)]);
       ("empty", Dir [("readme.txt", File)])].

Definition example_world : World :=
  {| fs := fs_of_tree example_tree;
     getenv_PROTOC := None;
     build_ext_include_dirs := None;
     find_executable_protoc := Some "/usr/bin/protoc";
     exit_status := fun _ => 0 |}.

(** [source_dir = 'a/b/c'], [proto_paths = ['a/b', 'x/y']] *)
Definition example_command : Command :=
  {| source_dir := Some "a/b/c"; output_dir := "."; proto_root_path := None;
     include_dirs := None; proto_paths := ["a/b"; "x/y"];
     extra_proto_paths := []; proto_files := None; recurse := None;
     protoc := None |}.

(** [source_dir = 'ab'], [proto_paths = ['a']] *)
Definition sibling_command : Command :=
  {| source_dir := Some "ab"; output_dir := "."; proto_root_path := None;
     include_dirs := None; proto_paths := ["a"];
     extra_proto_paths := []; proto_files := None; recurse := None;
     protoc := None |}.

(** ** Vocabulary of the statements *)

(** [key] occurs in [f]. *)
Definition occurs (key f : string) : Prop :=
  exists before after, f = before ++ key ++ after.

(** [before] and [after] are what stands around the first occurrence of
    [key] in [f]. *)
Definition first_occurrence (key f before after : string) : Prop :=
  f = before ++ key ++ after
  /\ forall b a, f = b ++ key ++ a -> String.length before <= String.length b.

(** [s] holds a path separator. *)
Fixpoint has_sep (s : string) : bool :=
  match s with
  | "" => false
  | String c s' => Ascii.eqb c "/" || has_sep s'
  end.

(** The directory [glob] lists for a pattern [os.path.join(d, pat)] with a
    literal [d]: [os.path.split] hands it [d] without its trailing slashes
    ([d] itself when nothing else is in it). *)
Definition listed_dir (d : string) : string :=
  if rstrip_sep d =? "" then d else rstrip_sep d.

(** The names in directory [d] that are not hidden: all of them, or those
    of directories only. *)
Definition visible_names (fs : filesys) (d : string) (dironly : bool)
  : list string :=
  List.filter (fun x => negb (glob.ishidden x)) (glob.iterdir fs d dironly).

(** The paths [d/name] of the visible entries of [d] whose name ends in
    [.proto]. *)
Definition proto_children (fs : filesys) (d : string) : list string :=
  map (fun name => os_path.join d [name])
      (List.filter (fun name => endswith name ".proto")
                   (visible_names fs d false)).

(** The paths [d/name] of the visible directories in [d]. *)
Definition subdirs (fs : filesys) (d : string) : list string :=
  map (fun name => os_path.join d [name]) (visible_names fs d true).

(** The three parts of what a method call leaves: its result, the command
    object and the trace. *)
Definition result {A : Type} (out : outcome A * state) : outcome A := fst out.
Definition final_self {A : Type} (out : outcome A * state) : Command :=
  fst (snd out).
Definition final_trace {A : Type} (out : outcome A * state) : list event :=
  snd (snd out).

(** [include_dirs] after [set_undefined_options]. *)
Definition effective_include_dirs (w : World) (self : Command)
  : list string :=
  match include_dirs self with
  | Some dirs => dirs
  | None =>
      match build_ext_include_dirs w with
      | Some dirs => dirs
      | None => []
      end
  end.

(** The search paths of a command, in the order [compute_proto_root_path]
    goes through them as candidates: the include directories, which
    [finalize_options] puts in front of [proto_paths], then [proto_paths],
    then [extra_proto_paths]. *)
Definition search_paths (w : World) (self : Command) : list string :=
  (effective_include_dirs w self ++ proto_paths self
   ++ extra_proto_paths self)%list.

(** The name of the executable [run_protoc] runs. *)
Definition executable (w : World) (self : Command) : option string :=
  match protoc self with
  | Some exe => Some exe
  | None => find_executable_protoc w
  end.

(** [--proto_path=<dir>] *)
Definition proto_path_flag (dir : string) : string := "--proto_path=" ++ dir.

(** A command whose root path is given and is not a prefix of the source
    directory, and one whose search path [missing] is not on disk. *)
Definition misrooted_command : Command :=
  with_proto_root_path (Some "x/y") example_command.

Definition missing_path_command : Command :=
  with_proto_paths ["a/b"; "missing"] example_command.

(** A command whose source directory holds no [.proto] file. *)
Definition empty_command : Command :=
  {| source_dir := Some "empty"; output_dir := "."; proto_root_path := None;
     include_dirs := None; proto_paths := [];
     extra_proto_paths := []; proto_files := None; recurse := None;
     protoc := None |}.

(** What [os.path.join(d, pat)] puts before [pat]: [d], and one separator
    unless [d] is empty or ends with one. *)
Definition dir_prefix (d : string) : string :=
  if (d =? "") || endswith d os_path.sep then d else d ++ os_path.sep.

(** A pattern of ordinary characters: no [*] and no [?]. *)
Fixpoint is_literal (pat : string) : bool :=
  match pat with
  | "" => true
  | String c pat' =>
      negb (Ascii.eqb c "*") && negb (Ascii.eqb c "?") && is_literal pat'
  end.

(** The paths [d/name] of the visible entries of [d] whose name matches
    [pat]. *)
Definition matching_paths (fs : filesys) (pat d : string) (dironly : bool)
  : list string :=
  map (fun name => os_path.join d [name])
      (List.filter (fnmatch.matches pat) (visible_names fs d dironly)).





(** ** Vocabulary of the further properties *)

(** The character [c] occurs in [s]. *)
Fixpoint contains_char (c : ascii) (s : string) : bool :=
  match s with
  | "" => false
  | String a s' => Ascii.eqb a c || contains_char c s'
  end.

(** No name in a tree holds a path separator, as on a real disk. *)
Fixpoint wf_tree (x : node) : bool :=
  match x with
  | File => true
  | Dir entries =>
      (fix wf_entries (l : list (string * node)) : bool :=
         match l with
         | [] => true
         | (name, child) :: rest =>
             negb (has_sep name) && wf_tree child && wf_entries rest
         end) entries
  end.

(** No directory listing of a file system holds a name with a path
    separator. *)
Definition names_without_sep (fs : filesys) : Prop :=
  forall (d : string) (entry : dirent),
    In entry (os_scandir fs d) -> has_sep (d_name entry) = false.

(** The executable a finalized and run command ends up with: the [protoc]
    option, else the environment variable [PROTOC], else the [protoc]
    found on the search path. *)
Definition resolved_executable (w : World) (self : Command) : option string :=
  match protoc self with
  | Some exe => Some exe
  | None =>
      match getenv_PROTOC w with
      | Some exe => Some exe
      | None => find_executable_protoc w
      end
  end.

(** The announcement [finalize_options] makes of a computed root. *)
Definition root_announcement (root : string) : event :=
  Announce ("using computed proto_root_path: " ++ root) 2.

(** The warning [finalize_options] gives when it finds no file. *)
Definition no_files_warning (source_dir : string) : event :=
  Warn ("no .proto files were found under " ++ source_dir).

(** A command whose source directory is spelled with a leading [./]. *)
Definition dotted_command : Command :=
  {| source_dir := Some "./ab"; output_dir := "."; proto_root_path := None;
     include_dirs := None; proto_paths := [];
     extra_proto_paths := []; proto_files := None; recurse := None;
     protoc := None |}.

(** A command whose file list is given. *)
Definition listed_command : Command :=
  with_proto_files (Some ["c/top.proto"]) example_command.

(** The root path [finalize_options] ends with, for a source directory
    [s]: the one given, else the one [compute_proto_root_path] makes of the
    search paths. *)
Definition resolved_root (w : World) (self : Command) (s : string) : string :=
  match proto_root_path self with
  | Some root => root
  | None =>
      fold_left ProtocCommandBase.root_step (search_paths w self)
                (os_path.normpath s)
  end.

(** The value of [recurse] after [finalize_options]. *)
Definition resolved_recurse (self : Command) : option bool :=
  match recurse self with
  | Some b => Some b
  | None => Some true
  end.
(** * The library models on concrete inputs

    The values are those Python 3 gives on POSIX. *)

Example normpath_collapses :
  os_path.normpath "a/b/../c//d/./" = "a/c/d"
  /\ os_path.normpath "a/b/c/" = "a/b/c"
  /\ os_path.normpath "a/.." = "."
  /\ os_path.normpath "" = "."
  /\ os_path.normpath "../a/.." = "..".
Proof. repeat split. Qed.

Example normpath_leading_slashes :
  os_path.normpath "//a/../../b" = "//b"
  /\ os_path.normpath "///a" = "/a"
  /\ os_path.normpath "/" = "/".
Proof. repeat split. Qed.

Example split_drops_trailing_slashes :
  os_path.split "a/b//*.proto" = ("a/b", "*.proto")
  /\ os_path.split "//x" = ("//", "x")
  /\ os_path.split "x" = ("", "x").
Proof. repeat split. Qed.

Example join_separators :
  os_path.join "a" ["**"; "*.proto"] = "a/**/*.proto"
  /\ os_path.join "a/" ["*.proto"] = "a/*.proto"
  /\ os_path.join "" ["*.proto"] = "*.proto"
  /\ os_path.join "/" ["*.proto"] = "/*.proto".
Proof. repeat split. Qed.

Example partition_first_occurrence :
  partition "a/b/c/d/foo.proto" "a/b/" = ("", "a/b/", "c/d/foo.proto")
  /\ partition "ab/a/x.proto" "a/" = ("ab/", "a/", "x.proto")
  /\ partition "ab/x.proto" "a/" = ("ab/x.proto", "", "")
  /\ partition "v=r=t" "=" = ("v", "=", "r=t").
Proof. repeat split. Qed.

Example glob_example_tree :
  glob.glob (fs example_world) "a/b/c/*.proto"
  = Some ["a/b/c/top.proto"; "a/b/c/dir.proto"]
  /\ glob.glob (fs example_world) "a/b/c/**/*.proto"
     = Some ["a/b/c/d/foo.proto"; "a/b/c/dir.proto/in.proto"]
  /\ glob.glob (fs example_world) "/a/b/c//*.proto"
     = Some ["/a/b/c/top.proto"; "/a/b/c/dir.proto"]
  /\ glob.glob (fs example_world) "a/*/c/**/*.proto"
     = Some ["a/b/c/d/foo.proto"; "a/b/c/dir.proto/in.proto"]
  /\ glob.glob (fs example_world) "a/b/c/top.proto"
     = Some ["a/b/c/top.proto"]
  /\ glob.glob (fs example_world) "*.proto" = Some [].
Proof. repeat split; vm_compute; reflexivity. Qed.

(** * Strings *)

Lemma append_assoc (s t u : string) : (s ++ t) ++ u = s ++ (t ++ u).
Proof. induction s as [|a s IH]; simpl; [reflexivity | now rewrite IH]. Qed.

Lemma append_nil_r (s : string) : s ++ "" = s.
Proof. induction s as [|a s IH]; simpl; [reflexivity | now rewrite IH]. Qed.

Lemma length_append (s t : string) :
  String.length (s ++ t) = String.length s + String.length t.
Proof. induction s as [|a s IH]; simpl; [reflexivity | now rewrite IH]. Qed.

(** * String prefixes *)

Lemma startswith_nil (s : string) : startswith s "" = true.
Proof. destruct s; reflexivity. Qed.

Lemma startswith_refl (s : string) : startswith s s = true.
Proof.
  induction s as [|a s IH]; simpl; [reflexivity|].
  now rewrite Ascii.eqb_refl, IH.
Qed.

Lemma startswith_iff (s p : string) :
  startswith s p = true <-> exists t, s = p ++ t.
Proof.
  revert s; induction p as [|b p IH]; intros s; simpl.
  - split; [intros _; now exists s | reflexivity].
  - destruct s as [|a s].
    + split; [discriminate | intros [t Ht]; discriminate].
    + rewrite andb_true_iff, Ascii.eqb_eq, IH. split.
      * intros [-> [t ->]]. now exists t.
      * intros [t Ht]. injection Ht as -> ->. split; [reflexivity | now exists t].
Qed.

Lemma startswith_app (p t : string) : startswith (p ++ t) p = true.
Proof. apply startswith_iff. now exists t. Qed.

Lemma startswith_length (s p : string) :
  startswith s p = true -> String.length p <= String.length s.
Proof.
  revert s; induction p as [|b p IH]; intros [|a s]; simpl; try lia; try discriminate.
  rewrite andb_true_iff. intros [_ H]. apply IH in H. lia.
Qed.

Lemma startswith_trans (s p q : string) :
  startswith s p = true -> startswith p q = true -> startswith s q = true.
Proof.
  rewrite !startswith_iff. intros [t ->] [u ->].
  exists (u ++ t). now rewrite append_assoc.
Qed.

(** Two prefixes of one string are comparable: the shorter is a prefix of
    the longer. *)
Lemma startswith_chain (s p q : string) :
  startswith s p = true -> startswith s q = true ->
  String.length q <= String.length p -> startswith p q = true.
Proof.
  revert s p; induction q as [|c q IH]; intros s p Hp Hq Hlen.
  - apply startswith_nil.
  - destruct p as [|b p]; [simpl in Hlen; lia|].
    destruct s as [|a s]; [discriminate|].
    simpl in *. rewrite andb_true_iff in *.
    destruct Hp as [Hab Hp], Hq as [Hac Hq].
    apply Ascii.eqb_eq in Hab, Hac. subst b c. split.
    + apply Ascii.eqb_refl.
    + apply (IH s); [assumption | assumption | lia].
Qed.

Lemma startswith_antisym (p q : string) :
  startswith p q = true -> startswith q p = true -> p = q.
Proof.
  revert q; induction p as [|a p IH]; intros [|b q]; simpl; try discriminate;
    [reflexivity|].
  rewrite !andb_true_iff, !Ascii.eqb_eq. intros [-> H1] [_ H2].
  f_equal. now apply IH.
Qed.

(** Prefixes of one string that have the same length are the same string. *)
Lemma startswith_same_length (s p q : string) :
  startswith s p = true -> startswith s q = true ->
  String.length p = String.length q -> p = q.
Proof.
  intros Hp Hq Hlen. apply startswith_antisym.
  - apply (startswith_chain s); [assumption | assumption | lia].
  - apply (startswith_chain s); [assumption | assumption | lia].
Qed.

(** * The root path: [compute_proto_root_path] *)

Section RootPath.

Import ProtocCommandBase.

(** The normalized source directory. *)
Variable S0 : string.

(** What the loop of [compute_proto_root_path] keeps and reaches, started
    from any prefix [r0] of the source directory: the result is a prefix
    of the source directory, it is [r0] or a normalized candidate, it is
    not longer than [r0], and no normalized candidate that is a prefix of
    the source directory is shorter. *)
Lemma fold_root_step_spec (cands : list string) :
  forall r0, startswith S0 r0 = true ->
  let r := fold_left root_step cands r0 in
  startswith S0 r = true
  /\ (r = r0 \/ In r (map os_path.normpath cands))
  /\ String.length r <= String.length r0
  /\ (forall c, In c (map os_path.normpath cands) ->
                startswith S0 c = true ->
                String.length r <= String.length c).
Proof.
  induction cands as [|cand cands IH]; intros r0 H0; cbv zeta;
    cbn [fold_left map].
  - repeat split; auto. intros c [].
  - assert (Hstep : root_step r0 cand
                    = if startswith r0 (os_path.normpath cand)
                      then os_path.normpath cand else r0) by reflexivity.
    rewrite Hstep. clear Hstep.
    destruct (startswith r0 (os_path.normpath cand)) eqn:E.
    + assert (Hc : startswith S0 (os_path.normpath cand) = true)
        by (eapply startswith_trans; eassumption).
      destruct (IH _ Hc) as (H1 & H2 & H3 & H4).
      repeat split.
      * exact H1.
      * destruct H2 as [-> | H2]; [right; now left | right; now right].
      * apply startswith_length in E. lia.
      * intros c [<- | Hin] Hpre; [exact H3 | now apply H4].
    + destruct (IH _ H0) as (H1 & H2 & H3 & H4).
      repeat split.
      * exact H1.
      * destruct H2 as [-> | H2]; [now left | right; now right].
      * exact H3.
      * intros c [<- | Hin] Hpre; [| now apply H4].
        destruct (Nat.le_gt_cases (String.length (os_path.normpath cand))
                                  (String.length r0)) as [Hle | Hgt];
          [| lia].
        rewrite (startswith_chain S0 r0 _ H0 Hpre Hle) in E. discriminate.
Qed.

End RootPath.

(** The result of the loop is determined by the set of normalized
    candidates. *)
Lemma fold_root_step_perm (S0 : string) (l l' : list string) :
  Permutation l l' ->
  fold_left ProtocCommandBase.root_step l S0
  = fold_left ProtocCommandBase.root_step l' S0.
Proof.
  intros HP.
  destruct (fold_root_step_spec S0 l S0 (startswith_refl S0))
    as (H1 & H2 & H3 & H4).
  destruct (fold_root_step_spec S0 l' S0 (startswith_refl S0))
    as (H1' & H2' & H3' & H4').
  cbv zeta in *.
  set (r := fold_left ProtocCommandBase.root_step l S0) in *.
  set (r' := fold_left ProtocCommandBase.root_step l' S0) in *.
  assert (HPn : Permutation (map os_path.normpath l) (map os_path.normpath l'))
    by now apply Permutation_map.
  apply (startswith_same_length S0); try assumption.
  apply Nat.le_antisymm.
  - destruct H2' as [E | Hin]; [rewrite E; exact H3|].
    apply H4; [| exact H1'].
    eapply Permutation_in; [apply Permutation_sym; exact HPn | exact Hin].
  - destruct H2 as [E | Hin]; [rewrite E; exact H3'|].
    apply H4'; [| exact H1].
    eapply Permutation_in; [exact HPn | exact Hin].
Qed.

(** C1.  For a command with a source directory and any candidate list
    ([proto_paths] followed by [extra_proto_paths]),
    [compute_proto_root_path] returns a string-prefix of the normalized
    source directory; when some normalized candidate is a prefix of the
    normalized source directory the result is such a candidate and no such
    candidate is shorter; when none is, the result is the normalized source
    directory itself. *)
Theorem compute_proto_root_path_shortest_prefix :
  forall (self : Command) (s : string),
    source_dir self = Some s ->
    let S0 := os_path.normpath s in
    let candidates :=
      map os_path.normpath (proto_paths self ++ extra_proto_paths self) in
    exists root,
      ProtocCommandBase.compute_proto_root_path self = Ok root
      /\ startswith S0 root = true
      /\ ((exists c, In c candidates /\ startswith S0 c = true) ->
          In root candidates
          /\ forall c, In c candidates -> startswith S0 c = true ->
                       String.length root <= String.length c)
      /\ ((forall c, In c candidates -> startswith S0 c = false) ->
          root = S0).
Proof.
  intros self s Hs S0 candidates.
  unfold ProtocCommandBase.compute_proto_root_path. rewrite Hs.
  destruct (fold_root_step_spec S0 (proto_paths self ++ extra_proto_paths self)
                                S0 (startswith_refl S0))
    as (H1 & H2 & H3 & H4).
  cbv zeta in *. fold S0.
  set (r := fold_left ProtocCommandBase.root_step _ S0) in *.
  exists r. repeat split.
  - exact H1.
  - destruct H as (c & Hin & Hpre).
    destruct H2 as [E | H2]; [| exact H2].
    assert (Hc : c = r).
    { apply (startswith_same_length S0); try assumption.
      apply Nat.le_antisymm.
      - apply startswith_length in Hpre. rewrite E. exact Hpre.
      - now apply H4. }
    now rewrite <- Hc.
  - exact H4.
  - intros Hnone. destruct H2 as [E | H2]; [exact E|].
    rewrite (Hnone _ H2) in H1. discriminate.
Qed.

Lemma compute_proto_root_path_shortest_prefix_witness :
  exists root,
    ProtocCommandBase.compute_proto_root_path example_command = Ok root
    /\ startswith "a/b/c" root = true.
Proof.
  destruct (compute_proto_root_path_shortest_prefix example_command "a/b/c"
                                                    eq_refl)
    as (root & H1 & H2 & _).
  exists root. split; assumption.
Defined.

(** C9.  The result of [compute_proto_root_path] does not depend on the
    order of the candidates: two commands with the same source directory
    whose candidate lists ([proto_paths] followed by [extra_proto_paths])
    are permutations of each other compute the same root. *)
Theorem compute_proto_root_path_order_independent :
  forall self self' : Command,
    source_dir self = source_dir self' ->
    Permutation (proto_paths self ++ extra_proto_paths self)
                (proto_paths self' ++ extra_proto_paths self') ->
    ProtocCommandBase.compute_proto_root_path self
    = ProtocCommandBase.compute_proto_root_path self'.
Proof.
  intros self self' Hs HP.
  unfold ProtocCommandBase.compute_proto_root_path. rewrite <- Hs.
  destruct (source_dir self) as [s|]; [| reflexivity].
  f_equal. now apply fold_root_step_perm.
Qed.

Lemma compute_proto_root_path_order_independent_witness :
  ProtocCommandBase.compute_proto_root_path example_command
  = ProtocCommandBase.compute_proto_root_path
      (with_proto_paths ["x/y"; "a/b"] example_command).
Proof.
  apply compute_proto_root_path_order_independent.
  - reflexivity.
  - simpl. apply perm_swap.
Defined.

(** * [str.partition] *)

Lemma find_split_eq (s sep : string) :
  find_split s sep
  = if startswith s sep then Some ("", drop (String.length sep) s)
    else match s with
         | "" => None
         | String c s' =>
             match find_split s' sep with
             | Some (before, after) => Some (String c before, after)
             | None => None
             end
         end.
Proof. destruct s; reflexivity. Qed.

Lemma startswith_drop (s p : string) :
  startswith s p = true -> s = p ++ drop (String.length p) s.
Proof.
  revert s; induction p as [|b p IH]; intros s; simpl.
  - reflexivity.
  - destruct s as [|a s]; [discriminate|].
    rewrite andb_true_iff, Ascii.eqb_eq. intros [-> H].
    f_equal. now apply IH.
Qed.

Lemma find_split_Some (s sep before after : string) :
  find_split s sep = Some (before, after) -> s = before ++ sep ++ after.
Proof.
  revert before; induction s as [|c s IH]; intros before;
    rewrite find_split_eq; destruct (startswith _ sep) eqn:E.
  - intros [= <- <-]. now apply startswith_drop.
  - discriminate.
  - intros [= <- <-]. now apply startswith_drop.
  - destruct (find_split s sep) as [[b a]|]; [| discriminate].
    intros [= <- <-]. simpl. f_equal. now apply IH.
Qed.

Lemma find_split_first (s sep before after : string) :
  find_split s sep = Some (before, after) ->
  forall b a, s = b ++ sep ++ a -> String.length before <= String.length b.
Proof.
  revert before; induction s as [|c s IH]; intros before;
    rewrite find_split_eq; destruct (startswith _ sep) eqn:E.
  - intros [= <- <-] b a _. simpl. lia.
  - discriminate.
  - intros [= <- <-] b a _. simpl. lia.
  - destruct (find_split s sep) as [[b0 a0]|] eqn:F; [| discriminate].
    intros [= <- <-] b a Hs. destruct b as [|c' b].
    + simpl in Hs. rewrite Hs, startswith_app in E. discriminate.
    + simpl in Hs. injection Hs as _ Hs. simpl.
      apply le_n_S. now apply (IH b0 eq_refl b a).
Qed.

Lemma find_split_None (s sep : string) :
  find_split s sep = None -> forall b a, s <> b ++ sep ++ a.
Proof.
  induction s as [|c s IH]; rewrite find_split_eq;
    destruct (startswith _ sep) eqn:E; try discriminate.
  - intros _ b a Hs. destruct b; [| discriminate].
    simpl in Hs. rewrite Hs, startswith_app in E. discriminate.
  - destruct (find_split s sep) as [[b0 a0]|] eqn:F; [discriminate|].
    intros _ b a Hs. destruct b as [|c' b].
    + simpl in Hs. rewrite Hs, startswith_app in E. discriminate.
    + simpl in Hs. injection Hs as _ Hs. exact (IH eq_refl b a Hs).
Qed.

(** What [f.partition(key)[-1]] is: the text after the first occurrence of
    [key] in [f], and the empty string when [key] does not occur. *)
Lemma partition_last (key f : string) :
  (exists before, first_occurrence key f before (last3 (partition f key)))
  \/ (~ occurs key f /\ last3 (partition f key) = "").
Proof.
  unfold partition. destruct (find_split f key) as [[b a]|] eqn:F.
  - left. exists b. split.
    + now apply find_split_Some.
    + now apply (find_split_first f key b a).
  - right. split; [| reflexivity].
    intros (b & a & H). exact (find_split_None f key F b a H).
Qed.

(** When [f] starts with [key], the first occurrence is the one at the
    front, and what is left is [f] without it. *)
Lemma partition_last_prefix (key rest : string) :
  last3 (partition (key ++ rest) key) = rest.
Proof.
  unfold partition. rewrite find_split_eq, startswith_app.
  unfold last3. simpl. clear.
  induction key as [|c key IH]; simpl; [reflexivity | exact IH].
Qed.

(** * Relative file names: [find_proto_files] *)

(** C10.  [find_proto_files] rewrites each globbed path [f] to what stands
    after the first occurrence of [proto_root_path + os.path.sep] in [f],
    wherever in [f] that occurrence is, and to the empty string when that
    string does not occur in [f]. *)
Theorem find_proto_files_partition :
  forall (w : World) (self : Command) (s root : string) (files : list string),
    source_dir self = Some s ->
    proto_root_path self = Some root ->
    ProtocCommandBase.glob_proto_files w s (recurse self) = Some files ->
    exists rel,
      ProtocCommandBase.find_proto_files w self = Ok rel
      /\ Forall2
           (fun f r =>
              (exists before,
                  first_occurrence (root ++ os_path.sep) f before r)
              \/ (~ occurs (root ++ os_path.sep) f /\ r = ""))
           files rel.
Proof.
  intros w self s root files Hs Hroot Hglob.
  exists (map (ProtocCommandBase.relative_to root) files). split.
  - unfold ProtocCommandBase.find_proto_files.
    rewrite Hs, Hglob, Hroot. now destruct files.
  - clear. induction files as [|f files IH]; simpl; constructor.
    + apply partition_last.
    + exact IH.
Qed.

Lemma find_proto_files_partition_witness :
  exists rel,
    ProtocCommandBase.find_proto_files
      example_world (with_proto_root_path (Some "a") sibling_command)
    = Ok rel
    /\ Forall2
         (fun f r =>
            (exists before, first_occurrence ("a" ++ os_path.sep) f before r)
            \/ (~ occurs ("a" ++ os_path.sep) f /\ r = ""))
         ["ab/x.proto"] rel.
Proof.
  apply (find_proto_files_partition
           example_world (with_proto_root_path (Some "a") sibling_command)
           "ab" "a" ["ab/x.proto"]); reflexivity.
Defined.

(** * Paths: [os.path.join] and [os.path.split] *)

Lemma has_sep_startswith (pat : string) :
  has_sep pat = false -> startswith pat os_path.sep = false.
Proof.
  destruct pat as [|a pat]; simpl; [reflexivity|].
  rewrite orb_false_iff. intros [-> _]. reflexivity.
Qed.

Lemma rsplit_sep_nosep (t : string) :
  has_sep t = false -> os_path.rsplit_sep t = ("", t).
Proof.
  induction t as [|c t IH]; simpl; [reflexivity|].
  rewrite orb_false_iff. intros [Hc Ht]. now rewrite (IH Ht), Hc.
Qed.

Lemma rsplit_sep_app (h t : string) :
  has_sep t = false -> os_path.rsplit_sep (h ++ "/" ++ t) = (h ++ "/", t).
Proof.
  intros Ht. induction h as [|c h IH].
  - simpl. now rewrite (rsplit_sep_nosep t Ht).
  - change (String c h ++ "/" ++ t) with (String c (h ++ "/" ++ t)).
    cbn [os_path.rsplit_sep]. rewrite IH. now destruct h.
Qed.

Lemma endswith_eq (s suf : string) :
  endswith s suf
  = (s =? suf) || match s with
                  | "" => false
                  | String _ s' => endswith s' suf
                  end.
Proof. destruct s; reflexivity. Qed.

Lemma endswith_inv (s suf : string) :
  endswith s suf = true -> exists h, s = h ++ suf.
Proof.
  induction s as [|c s IH]; rewrite endswith_eq, orb_true_iff.
  - intros [H | H]; [| discriminate].
    apply String.eqb_eq in H. subst suf. now exists "".
  - intros [H | H].
    + apply String.eqb_eq in H. subst suf. now exists "".
    + destruct (IH H) as [h ->]. now exists (String c h).
Qed.

Lemma endswith_app_nonempty (x y suf : string) :
  y <> "" -> String.length suf <= String.length y ->
  endswith (x ++ y) suf = endswith y suf.
Proof.
  intros Hy Hlen. induction x as [|c x IH]; [reflexivity|].
  change (String c x ++ y) with (String c (x ++ y)).
  rewrite endswith_eq, IH.
  destruct (String.eqb_spec (String c (x ++ y)) suf) as [E | _];
    [| reflexivity].
  exfalso. rewrite <- E in Hlen. simpl in Hlen.
  rewrite length_append in Hlen. lia.
Qed.

Lemma rstrip_sep_no_trailing (s : string) :
  endswith s "/" = false -> rstrip_sep s = s.
Proof.
  induction s as [|c s IH]; [reflexivity|].
  rewrite endswith_eq, orb_false_iff. intros [Hne Hs].
  cbn [rstrip_sep]. rewrite (IH Hs).
  destruct s as [|c' s]; [| reflexivity].
  destruct (Ascii.eqb_spec c "/") as [-> | _]; [discriminate | reflexivity].
Qed.

Lemma rstrip_sep_app_sep (h : string) : rstrip_sep (h ++ "/") = rstrip_sep h.
Proof.
  induction h as [|c h IH]; [reflexivity|].
  change (String c h ++ "/") with (String c (h ++ "/")).
  cbn [rstrip_sep]. now rewrite IH.
Qed.

Lemma join_one (d pat : string) :
  has_sep pat = false -> os_path.join d [pat] = dir_prefix d ++ pat.
Proof.
  intros Hpat. unfold os_path.join, dir_prefix. cbn [fold_left].
  unfold os_path.join_step. rewrite (has_sep_startswith pat Hpat).
  destruct ((d =? "") || endswith d os_path.sep); [reflexivity|].
  now rewrite append_assoc.
Qed.

Lemma join_empty (name : string) : os_path.join "" [name] = name.
Proof.
  unfold os_path.join. cbn [fold_left]. unfold os_path.join_step.
  now destruct (startswith name os_path.sep).
Qed.

(** [os.path.split] undoes [os.path.join] on a last component without
    separator, up to the trailing slashes of the directory. *)
Lemma split_join (d pat : string) :
  has_sep pat = false ->
  os_path.split (os_path.join d [pat]) = (listed_dir d, pat).
Proof.
  intros Hpat. rewrite (join_one d pat Hpat). unfold dir_prefix, listed_dir.
  destruct (String.eqb_spec d "") as [-> | Hd]; cbn [orb].
  - unfold os_path.split. cbn [append]. now rewrite (rsplit_sep_nosep pat Hpat).
  - destruct (endswith d os_path.sep) eqn:E.
    + destruct (endswith_inv _ _ E) as [h ->]. unfold os_path.sep.
      rewrite append_assoc. unfold os_path.split.
      rewrite (rsplit_sep_app h pat Hpat).
      destruct (String.eqb_spec (h ++ "/") "") as [E0 | _].
      { destruct h; discriminate. }
      cbn [negb andb].
      now destruct (rstrip_sep (h ++ "/") =? "").
    + unfold os_path.sep in *. rewrite append_assoc. unfold os_path.split.
      rewrite (rsplit_sep_app d pat Hpat), rstrip_sep_app_sep.
      rewrite (rstrip_sep_no_trailing d E).
      destruct (String.eqb_spec (d ++ "/") "") as [E0 | _].
      { destruct d; discriminate. }
      destruct (String.eqb_spec d "") as [E1 | _]; [contradiction|].
      reflexivity.
Qed.

(** * [fnmatch] and [glob] *)

Lemma has_magic_app (a b : string) :
  glob.has_magic (a ++ b) = glob.has_magic a || glob.has_magic b.
Proof.
  induction a as [|c a IH]; [reflexivity|].
  change (String c a ++ b) with (String c (a ++ b)).
  cbn [glob.has_magic]. rewrite IH. now rewrite !orb_assoc.
Qed.

Lemma has_magic_rstrip (s : string) :
  glob.has_magic s = false -> glob.has_magic (rstrip_sep s) = false.
Proof.
  induction s as [|c s IH]; [reflexivity|].
  cbn [glob.has_magic rstrip_sep]. rewrite !orb_false_iff.
  intros [[[H1 H2] H3] Hs]. specialize (IH Hs).
  destruct (rstrip_sep s) as [|c' r].
  - destruct (Ascii.eqb c "/"); [reflexivity|].
    cbn [glob.has_magic]. now rewrite H1, H2, H3.
  - cbn [glob.has_magic] in *. now rewrite H1, H2, H3, IH.
Qed.

Lemma has_magic_listed_dir (d : string) :
  glob.has_magic d = false -> glob.has_magic (listed_dir d) = false.
Proof.
  intros H. unfold listed_dir.
  destruct (rstrip_sep d =? ""); [exact H | now apply has_magic_rstrip].
Qed.

Lemma has_magic_join (d pat : string) :
  has_sep pat = false -> glob.has_magic pat = true ->
  glob.has_magic (os_path.join d [pat]) = true.
Proof.
  intros Hs Hm. rewrite (join_one d pat Hs), has_magic_app, Hm.
  apply orb_true_r.
Qed.

(** A pattern of ordinary characters matches itself only. *)
Lemma matches_literal (pat : string) :
  is_literal pat = true -> forall name, fnmatch.matches pat name = (name =? pat).
Proof.
  induction pat as [|p pat IH]; intros Hlit name.
  - reflexivity.
  - cbn [is_literal] in Hlit. rewrite !andb_true_iff, !negb_true_iff in Hlit.
    destruct Hlit as [[H1 H2] H3]. cbn [fnmatch.matches]. rewrite H1.
    destruct name as [|c name]; [reflexivity|].
    rewrite H2, (IH H3). cbn [orb String.eqb]. now rewrite Ascii.eqb_sym.
Qed.

(** The loop of a [*]: it takes no character, or one and goes on. *)
Lemma matches_star (pat name : string) :
  fnmatch.matches (String "*" pat) name
  = fnmatch.matches pat name
    || match name with
       | "" => false
       | String _ name' => fnmatch.matches (String "*" pat) name'
       end.
Proof. destruct name; reflexivity. Qed.

(** [*.proto] matches the names that end in [.proto]. *)
Lemma matches_star_proto (name : string) :
  fnmatch.matches "*.proto" name = endswith name ".proto".
Proof.
  induction name as [|c name IH]; [reflexivity|].
  rewrite matches_star, endswith_eq, IH.
  now rewrite (matches_literal ".proto" eq_refl).
Qed.

(** [**] matches every name. *)
Lemma matches_star_star (name : string) : fnmatch.matches "**" name = true.
Proof.
  assert (H1 : forall n, fnmatch.matches "*" n = true).
  { induction n as [|c n IH]; [reflexivity|].
    rewrite matches_star, IH. apply orb_true_r. }
  now rewrite matches_star, H1.
Qed.

Lemma iglob_S (fuel : nat) (fs : filesys) (pathname : string) (dironly : bool) :
  glob.iglob (S fuel) fs pathname dironly
  = let (dirname, basename) := os_path.split pathname in
    if negb (glob.has_magic pathname) then
      if negb (basename =? "") then
        Some (if os_path_lexists fs pathname then [pathname] else [])
      else
        Some (if os_path_isdir fs dirname then [pathname] else [])
    else if dirname =? "" then
      glob.glob1 fs dirname basename dironly
    else
      match
        (if negb (dirname =? pathname) && glob.has_magic dirname
         then glob.iglob fuel fs dirname true
         else Some [dirname])
      with
      | None => None
      | Some dirs => glob.in_dirs fs dirs basename dironly
      end.
Proof. reflexivity. Qed.

Section GlobPattern.

Variable fs : filesys.

(** A last component with a wildcard, without separator or bracket, and
    that does not ask for hidden names: [*.proto] and [**] are such. *)
Variable pat : string.
Hypothesis pat_sep : has_sep pat = false.
Hypothesis pat_magic : glob.has_magic pat = true.
Hypothesis pat_bracket : fnmatch.has_bracket pat = false.
Hypothesis pat_hidden : glob.ishidden pat = false.

Lemma glob1_pattern (d : string) (dironly : bool) :
  glob.glob1 fs d pat dironly
  = Some (List.filter (fnmatch.matches pat) (visible_names fs d dironly)).
Proof.
  unfold glob.glob1, fnmatch.filter. now rewrite pat_hidden, pat_bracket.
Qed.

Lemma in_dirs_pattern (dirs : list string) (dironly : bool) :
  glob.in_dirs fs dirs pat dironly
  = Some (flat_map (fun d => matching_paths fs pat d dironly) dirs).
Proof.
  induction dirs as [|d dirs IH]; [reflexivity|].
  cbn [glob.in_dirs flat_map]. unfold glob.glob_in_dir.
  now rewrite pat_magic, glob1_pattern, IH.
Qed.

(** The pattern [os.path.join(d, pat)] for a literal directory [d]: the
    visible names of [d] that match [pat]. *)
Lemma iglob_join (fuel : nat) (d : string) (dironly : bool) :
  glob.has_magic d = false ->
  glob.iglob (S fuel) fs (os_path.join d [pat]) dironly
  = Some (matching_paths fs pat (listed_dir d) dironly).
Proof.
  intros Hd. rewrite iglob_S, (split_join d pat pat_sep).
  rewrite (has_magic_join d pat pat_sep pat_magic). cbn [negb].
  destruct (String.eqb_spec (listed_dir d) "") as [E | _].
  - rewrite E, glob1_pattern. unfold matching_paths. f_equal.
    rewrite <- (map_id (List.filter _ _)) at 1.
    apply map_ext. intros name. now rewrite join_empty.
  - rewrite (has_magic_listed_dir d Hd), andb_false_r.
    rewrite in_dirs_pattern. cbn [flat_map]. now rewrite app_nil_r.
Qed.

End GlobPattern.

Lemma filter_true {A : Type} (f : A -> bool) (l : list A) :
  (forall x, f x = true) -> List.filter f l = l.
Proof.
  intros H. induction l as [|x l IH]; [reflexivity|].
  cbn [List.filter]. now rewrite H, IH.
Qed.

(** [glob.glob(os.path.join(d, '*.proto'))]: the visible entries of [d]
    whose name ends in [.proto]. *)
Lemma glob_children (fs : filesys) (d : string) :
  glob.has_magic d = false ->
  glob.glob fs (os_path.join d ["*.proto"])
  = Some (proto_children fs (listed_dir d)).
Proof.
  intros Hd. unfold glob.glob.
  rewrite (iglob_join fs "*.proto" eq_refl eq_refl eq_refl eq_refl _ d false Hd).
  unfold proto_children, matching_paths. do 2 f_equal.
  apply filter_ext. exact matches_star_proto.
Qed.

(** [glob.glob(os.path.join(d, '**', '*.proto'))]: without
    [recursive=True] the [**] is one directory level, so these are the
    [.proto] children of the visible directories in [d], and nothing
    deeper. *)
Lemma glob_grandchildren (fs : filesys) (d : string) :
  glob.has_magic d = false ->
  glob.glob fs (os_path.join d ["**"; "*.proto"])
  = Some (flat_map (proto_children fs) (subdirs fs (listed_dir d))).
Proof.
  intros Hd.
  change (os_path.join d ["**"; "*.proto"])
    with (os_path.join (os_path.join d ["**"]) ["*.proto"]).
  set (P := os_path.join d ["**"]).
  assert (HP : P = dir_prefix d ++ "**") by (apply join_one; reflexivity).
  assert (Hne : P <> "").
  { rewrite HP. intros E. apply (f_equal String.length) in E.
    rewrite length_append in E. simpl in E. lia. }
  assert (Hend : endswith P os_path.sep = false).
  { rewrite HP. rewrite endswith_app_nonempty; [reflexivity | discriminate |].
    simpl. lia. }
  assert (Hlisted : listed_dir P = P).
  { unfold listed_dir. rewrite (rstrip_sep_no_trailing P Hend).
    now destruct (P =? ""). }
  assert (Hjoin : os_path.join P ["*.proto"] = (P ++ "/") ++ "*.proto").
  { rewrite join_one by reflexivity. unfold dir_prefix. rewrite Hend.
    destruct (String.eqb_spec P "") as [E | _]; [contradiction | reflexivity]. }
  assert (Hmagic : glob.has_magic P = true)
    by (apply has_magic_join; reflexivity).
  unfold glob.glob.
  destruct (String.length (os_path.join P ["*.proto"])) as [|k] eqn:L.
  { rewrite Hjoin, length_append in L. simpl in L. lia. }
  rewrite iglob_S, (split_join P "*.proto" eq_refl), Hlisted.
  rewrite (has_magic_join P "*.proto" eq_refl eq_refl). cbn [negb].
  destruct (String.eqb_spec P "") as [E | _]; [contradiction|].
  destruct (String.eqb_spec P (os_path.join P ["*.proto"])) as [E | _].
  { exfalso. apply (f_equal String.length) in E.
    rewrite Hjoin, !length_append in E. simpl in E. lia. }
  rewrite Hmagic. cbn [negb andb]. unfold P.
  rewrite (iglob_join fs "**" eq_refl eq_refl eq_refl eq_refl _ d true Hd).
  unfold matching_paths at 1. rewrite (filter_true _ _ matches_star_star).
  rewrite (in_dirs_pattern fs "*.proto" eq_refl eq_refl eq_refl).
  fold (subdirs fs (listed_dir d)). f_equal.
  apply flat_map_ext. intros dir. unfold proto_children, matching_paths.
  f_equal.
  apply filter_ext. exact matches_star_proto.
Qed.

(** What [find_proto_files] globs under a source directory without glob
    metacharacters: the [.proto] children of the directory, then, with
    [recurse], those of its visible subdirectories. *)
Lemma glob_proto_files_spec (w : World) (d : string) (recurse : option bool) :
  glob.has_magic d = false ->
  ProtocCommandBase.glob_proto_files w d recurse
  = Some (proto_children (fs w) (listed_dir d)
          ++ match recurse with
             | Some true =>
                 flat_map (proto_children (fs w))
                          (subdirs (fs w) (listed_dir d))
             | _ => []
             end)%list.
Proof.
  intros Hd. unfold ProtocCommandBase.glob_proto_files.
  rewrite (glob_children (fs w) d Hd), (glob_grandchildren (fs w) d Hd).
  destruct recurse as [[|]|]; try reflexivity; now rewrite app_nil_r.
Qed.

(** * The glob model is total on patterns without brackets

    [fuel] above the length of the pattern is enough, and the answer
    [None] stands for a bracket expression only. *)

Lemma has_bracket_app (a b : string) :
  fnmatch.has_bracket (a ++ b)
  = fnmatch.has_bracket a || fnmatch.has_bracket b.
Proof.
  induction a as [|c a IH]; [reflexivity|].
  change (String c a ++ b) with (String c (a ++ b)).
  cbn [fnmatch.has_bracket]. now rewrite IH, orb_assoc.
Qed.

Lemma rsplit_sep_app_eq (p : string) :
  p = fst (os_path.rsplit_sep p) ++ snd (os_path.rsplit_sep p).
Proof.
  induction p as [|c p IH]; [reflexivity|].
  cbn [os_path.rsplit_sep].
  destruct (os_path.rsplit_sep p) as [[|h0 h] t]; cbn [fst snd] in *.
  - destruct (Ascii.eqb c "/"); cbn [fst snd append]; now rewrite IH at 1.
  - cbn [append]. now rewrite IH at 1.
Qed.

Lemma rstrip_sep_prefix (s : string) : exists u, s = rstrip_sep s ++ u.
Proof.
  induction s as [|c s [u IH]]; [now exists ""|].
  cbn [rstrip_sep]. destruct (rstrip_sep s) as [|c' r].
  - destruct (Ascii.eqb c "/").
    + now exists (String c s).
    + exists s. reflexivity.
  - exists u. cbn [append] in *. now rewrite IH at 1.
Qed.

(** [os.path.split] cuts a path in a prefix and a last component. *)
Lemma split_prefix (p : string) :
  exists u, p = fst (os_path.split p) ++ u
            /\ fnmatch.has_bracket (snd (os_path.split p))
               = fnmatch.has_bracket (snd (os_path.rsplit_sep p))
            /\ snd (os_path.split p) = snd (os_path.rsplit_sep p).
Proof.
  unfold os_path.split. pose proof (rsplit_sep_app_eq p) as Hp.
  destruct (os_path.rsplit_sep p) as [h t]. cbn [fst snd] in *.
  destruct (negb (h =? "") && negb (rstrip_sep h =? "")).
  - destruct (rstrip_sep_prefix h) as [u Hu].
    exists (u ++ t). repeat split.
    rewrite <- append_assoc, <- Hu. exact Hp.
  - exists t. repeat split. exact Hp.
Qed.

Lemma split_has_bracket (p : string) :
  fnmatch.has_bracket p = false ->
  fnmatch.has_bracket (fst (os_path.split p)) = false
  /\ fnmatch.has_bracket (snd (os_path.split p)) = false.
Proof.
  intros Hp. destruct (split_prefix p) as (u & Hu & _ & Ht). split.
  - rewrite Hu, has_bracket_app, orb_false_iff in Hp. apply Hp.
  - rewrite Ht. rewrite (rsplit_sep_app_eq p), has_bracket_app,
      orb_false_iff in Hp. apply Hp.
Qed.

Lemma split_shorter (p : string) :
  fst (os_path.split p) <> p ->
  String.length (fst (os_path.split p)) < String.length p.
Proof.
  intros Hne. destruct (split_prefix p) as (u & Hu & _).
  destruct u as [|c u].
  - rewrite append_nil_r in Hu. now symmetry in Hu.
  - rewrite Hu at 2. rewrite length_append. simpl. lia.
Qed.

Lemma in_dirs_total (fs : filesys) (dirs : list string) (basename : string)
    (dironly : bool) :
  fnmatch.has_bracket basename = false ->
  exists l, glob.in_dirs fs dirs basename dironly = Some l.
Proof.
  intros Hb. induction dirs as [|d dirs [l IH]]; [now exists []|].
  cbn [glob.in_dirs]. unfold glob.glob_in_dir, glob.glob1, fnmatch.filter.
  rewrite Hb, IH. destruct (glob.has_magic basename); eauto.
Qed.

Lemma iglob_total (fs : filesys) (fuel : nat) :
  forall (pathname : string) (dironly : bool),
    String.length pathname < fuel ->
    fnmatch.has_bracket pathname = false ->
    exists l, glob.iglob fuel fs pathname dironly = Some l.
Proof.
  induction fuel as [|fuel IH]; intros pathname dironly Hlen Hb; [lia|].
  rewrite iglob_S.
  destruct (split_has_bracket pathname Hb) as [Hd Hbase].
  pose proof (split_shorter pathname) as Hshort.
  destruct (os_path.split pathname) as [dirname basename].
  cbn [fst snd] in *.
  destruct (glob.has_magic pathname); cbn [negb].
  - destruct (dirname =? "").
    + unfold glob.glob1, fnmatch.filter. rewrite Hbase. eauto.
    + destruct (String.eqb_spec dirname pathname) as [E | Hne]; cbn [negb andb].
      * apply in_dirs_total. exact Hbase.
      * destruct (glob.has_magic dirname).
        -- destruct (IH dirname true) as [dirs ->]; [| exact Hd |].
           ++ specialize (Hshort Hne). lia.
           ++ apply in_dirs_total. exact Hbase.
        -- apply in_dirs_total. exact Hbase.
  - destruct (negb (basename =? "")); eauto.
Qed.

Lemma glob_total (fs : filesys) (pathname : string) :
  fnmatch.has_bracket pathname = false ->
  exists l, glob.glob fs pathname = Some l.
Proof. intros Hb. apply iglob_total; [lia | exact Hb]. Qed.

Lemma has_bracket_dir_prefix (d : string) :
  fnmatch.has_bracket (dir_prefix d) = fnmatch.has_bracket d.
Proof.
  unfold dir_prefix. destruct ((d =? "") || endswith d os_path.sep);
    [reflexivity|].
  rewrite has_bracket_app. apply orb_false_r.
Qed.

(** [find_proto_files] stays inside the model for every source directory
    whose name holds no [[]. *)
Lemma glob_proto_files_total (w : World) (d : string) (recurse : option bool) :
  fnmatch.has_bracket d = false ->
  exists files, ProtocCommandBase.glob_proto_files w d recurse = Some files.
Proof.
  intros Hd. unfold ProtocCommandBase.glob_proto_files.
  destruct (glob_total (fs w) (os_path.join d ["*.proto"])) as [l ->].
  { rewrite join_one by reflexivity.
    now rewrite has_bracket_app, has_bracket_dir_prefix, Hd. }
  destruct (glob_total (fs w) (os_path.join d ["**"; "*.proto"])) as [l' ->].
  { change (os_path.join d ["**"; "*.proto"])
      with (os_path.join (os_path.join d ["**"]) ["*.proto"]).
    rewrite join_one by reflexivity.
    rewrite has_bracket_app, has_bracket_dir_prefix.
    rewrite join_one by reflexivity.
    now rewrite has_bracket_app, has_bracket_dir_prefix, Hd. }
  destruct recurse as [[|]|]; eauto.
Qed.




(** The example of the comment in [compute_proto_root_path]: with
    [source_dir = 'a/b/c'] and [proto_paths = ['a/b', 'x/y']] the root is
    [a/b] and [a/b/c/d/foo.proto] is named [c/d/foo.proto]. *)
Example finalize_options_comment_example :
  exists self tr,
    ProtocCommandBase.finalize_options example_world (example_command, [])
    = (Ok tt, (self, tr))
    /\ proto_root_path self = Some "a/b"
    /\ ProtocCommandBase.relative_to "a/b" "a/b/c/d/foo.proto" = "c/d/foo.proto"
    /\ proto_files self
       = Some ["c/top.proto"; "c/dir.proto"; "c/d/foo.proto";
               "c/dir.proto/in.proto"].
Proof. do 2 eexists. vm_compute. repeat split; reflexivity. Qed.

(** C3.  Not every globbed path is rewritten by taking the root path and
    one separator off its front.  For [source_dir = 'ab'] and
    [proto_paths = ['a']], with both directories on disk, finalization
    succeeds with the root [a] (a string-prefix of [ab]), globs
    [ab/x.proto], and rewrites it to the empty string: the path does not
    start with [a/], nothing is taken off its front, and what is left is
    no path relative to the root, which the comment in [find_proto_files]
    promises. *)
Theorem find_proto_files_sibling_directory :
  exists self tr,
    ProtocCommandBase.finalize_options example_world (sibling_command, [])
    = (Ok tt, (self, tr))
    /\ proto_root_path self = Some "a"
    /\ ProtocCommandBase.glob_proto_files example_world "ab" (recurse self)
       = Some ["ab/x.proto"]
    /\ startswith "ab/x.proto" ("a" ++ os_path.sep) = false
    /\ proto_files self = Some [""].
Proof. do 2 eexists. vm_compute. repeat split; reflexivity. Qed.

(** C2.  With [recurse] on, [find_proto_files] does not reach every depth:
    [a/b/c/d/e/deep.proto] is a file two levels below the source directory
    [a/b/c], and neither the glob nor the finalized [proto_files] holds
    it.  The pattern [**] is globbed without [recursive=True], so it
    stands for one directory level only. *)
Theorem find_proto_files_recurse_misses_deep_file :
  resolve example_tree "a/b/c/d/e/deep.proto" = Some File
  /\ endswith "a/b/c/d/e/deep.proto" ".proto" = true
  /\ ProtocCommandBase.glob_proto_files example_world "a/b/c" (Some true)
     = Some ["a/b/c/top.proto"; "a/b/c/dir.proto"; "a/b/c/d/foo.proto";
             "a/b/c/dir.proto/in.proto"]
  /\ exists self tr,
       ProtocCommandBase.finalize_options
         example_world (with_recurse (Some true) example_command, [])
       = (Ok tt, (self, tr))
       /\ proto_files self
          = Some ["c/top.proto"; "c/dir.proto"; "c/d/foo.proto";
                  "c/dir.proto/in.proto"].
Proof.
  repeat split; try (vm_compute; reflexivity).
  do 2 eexists. vm_compute. split; reflexivity.
Qed.

(** * Option finalization: [finalize_options] *)

(** An exception goes through what follows. *)
Lemma bind_raised {A B : Type} (m : M A) (k : A -> M B) (st st' : state)
    (e : exn) :
  m st = (Raise e, st') -> bind m k st = (Raise e, st').
Proof. intros H. unfold bind. now rewrite H. Qed.

Lemma bind_unmodelled {A B : Type} (m : M A) (k : A -> M B) (st st' : state) :
  m st = (Unmodelled, st') -> bind m k st = (Unmodelled, st').
Proof. intros H. unfold bind. now rewrite H. Qed.

Lemma bind_returned {A B : Type} (m : M A) (k : A -> M B) (st st' : state)
    (a : A) :
  m st = (Ok a, st') -> bind m k st = k a st'.
Proof. intros H. unfold bind. now rewrite H. Qed.

(** Symbolic execution of [finalize_options]: the monad is unfolded and
    every test the method makes is decided both ways, so that each goal
    left stands for one path through the method. *)
Ltac unfold_finalize H :=
  unfold ProtocCommandBase.finalize_options,
    ProtocCommandBase.ensure_proto_path_list, ensure_string_list,
    set_undefined_options, ensure_dirname, announce, warn, get_self,
    modify, ret, raise, lift, emit, bind,
    ProtocCommandBase.compute_proto_root_path in H;
  cbn -[append startswith ProtocCommandBase.find_proto_files fold_left
        List.filter] in H.

Ltac case_step H :=
  match type of H with
  | context [match ?x with _ => _ end] =>
      lazymatch x with
      | context [match _ with _ => _ end] => fail
      | _ => destruct x eqn:?
      end
  end;
  cbn -[append startswith ProtocCommandBase.find_proto_files fold_left
        List.filter] in H;
  repeat match goal with
         | E : Some _ = Some _ |- _ => injection E as E; subst
         | E : Some _ = None |- _ => discriminate E
         | E : None = Some _ |- _ => discriminate E
         end.

Ltac project_state :=
  cbn [fst snd source_dir output_dir proto_root_path include_dirs proto_paths
       extra_proto_paths proto_files recurse protoc with_proto_root_path
       with_include_dirs with_proto_paths with_proto_files with_recurse
       with_protoc] in *.

(** [find_proto_files] raises nothing but [TypeError]. *)
Lemma find_proto_files_raise (w : World) (self : Command) (e : exn) :
  ProtocCommandBase.find_proto_files w self = Raise e -> e = TypeError.
Proof.
  unfold ProtocCommandBase.find_proto_files.
  destruct (source_dir self); [| congruence].
  destruct (ProtocCommandBase.glob_proto_files _ _ _) as [[|f files]|];
    try discriminate.
  destruct (proto_root_path self); [discriminate | congruence].
Qed.

Lemma filter_nil_In {A : Type} (f : A -> bool) (l : list A) (x : A) :
  List.filter f l = [] -> In x l -> f x = false.
Proof.
  intros Hnil Hin. destruct (f x) eqn:E; [| reflexivity].
  assert (Hx : In x (List.filter f l)) by (apply filter_In; now split).
  rewrite Hnil in Hx. destruct Hx.
Qed.

(** C5.  In every configuration with a source directory [s]: if the root
    path the command ends with is not a string-prefix of [s],
    [finalize_options] has raised a [DistutilsOptionError]; if it is one,
    no [DistutilsOptionError] raised is the one that says [source_dir] is
    not under [proto_root_path]; and a finalization that returns has
    resolved a root path that [s] begins with. *)
Theorem finalize_options_source_under_root :
  forall (w : World) (self : Command) (tr : list event) (s : string),
    source_dir self = Some s ->
    let out := ProtocCommandBase.finalize_options w (self, tr) in
    (forall root,
        proto_root_path (final_self out) = Some root ->
        startswith s root = false ->
        exists msg paths, result out = Raise (DistutilsOptionError msg paths))
    /\ (forall root,
           proto_root_path (final_self out) = Some root ->
           startswith s root = true ->
           forall msg paths,
             result out = Raise (DistutilsOptionError msg paths) ->
             startswith msg "source_dir " = false)
    /\ (result out = Ok tt ->
        exists root,
          proto_root_path (final_self out) = Some root
          /\ startswith s root = true).
Proof.
  intros w self tr s Hs out. subst out.
  destruct (ProtocCommandBase.finalize_options w (self, tr))
    as [res [self' tr']] eqn:H.
  unfold result, final_self. cbn [fst snd].
  unfold_finalize H. rewrite ?Hs in H.
  repeat (case_step H; rewrite ?Hs in * ).
  all: injection H as <- <- <-; project_state.
  all: rewrite ?negb_true_iff, ?negb_false_iff in *.
  all: repeat match goal with
              | E : ProtocCommandBase.find_proto_files _ _ = Raise _ |- _ =>
                  apply find_proto_files_raise in E; subst
              end.
  all: split; [intros root Hroot Hpre
              | split; [intros root Hroot Hpre msg paths Hres | intros Hres]].
  all: try congruence.
  all: try solve [eauto].
  all: try solve [injection Hres as <- _; reflexivity].
Qed.

Lemma finalize_options_source_under_root_witness :
  exists msg paths,
    result (ProtocCommandBase.finalize_options
              example_world (misrooted_command, []))
    = Raise (DistutilsOptionError msg paths).
Proof.
  apply (finalize_options_source_under_root
           example_world misrooted_command [] "a/b/c" eq_refl)
    with (root := "x/y"); reflexivity.
Defined.

(** The checks of the search paths come before everything
    [finalize_options] does to the outside: with an invalid entry it raises
    and the trace is as it was. *)
Lemma finalize_options_checks_search_paths :
  forall (w : World) (self : Command) (tr : list event) (p : string),
    In p (search_paths w self) ->
    ProtocCommandBase.invalid_proto_path w p = true ->
    exists msg paths self',
      ProtocCommandBase.finalize_options w (self, tr)
      = (Raise (DistutilsOptionError msg paths), (self', tr)).
Proof.
  intros w self tr p Hin Hbad.
  destruct (ProtocCommandBase.finalize_options w (self, tr))
    as [res [self' tr']] eqn:H.
  unfold search_paths, effective_include_dirs in Hin.
  unfold_finalize H.
  do 12 (try (case_step H;
             repeat match goal with
                    | E : include_dirs self = _ |- _ => rewrite E in Hin
                    | E : build_ext_include_dirs w = _ |- _ => rewrite E in Hin
                    end)).
  all: try solve [injection H as <- <- <-; eauto].
  all: exfalso; clear H.
  all: assert (Hok : ProtocCommandBase.invalid_proto_path w p = false);
    [| congruence].
  all: rewrite !in_app_iff in Hin.
  all: destruct Hin as [Hin | [Hin | Hin]].
  all: try solve [destruct Hin].
  all: match goal with
       | E : List.filter _ ?l = [] |- _ =>
           apply (filter_nil_In _ l p E); rewrite ?in_app_iff;
             solve [auto]
       end.
Qed.

(** C6.  When a search path ([include_dirs], as given or as taken from
    [build_ext], [proto_paths] or [extra_proto_paths]) holds an entry that
    is not on disk (a plain entry that is not a directory, or a
    [virtual=real] entry whose real path does not exist), finalization
    raises a [DistutilsOptionError], and the whole command (finalize, then
    run) ends with that error without having emitted anything: no process
    was spawned. *)
Theorem run_command_rejects_missing_search_path :
  forall (w : World) (self : Command) (tr : list event) (p : string),
    In p (search_paths w self) ->
    ProtocCommandBase.invalid_proto_path w p = true ->
    (exists msg paths,
        result (ProtocCommandBase.finalize_options w (self, tr))
        = Raise (DistutilsOptionError msg paths)
        /\ result (generate_py_protobufs.finalize_options w (self, tr))
           = Raise (DistutilsOptionError msg paths)
        /\ result (generate_py_protobufs.run_command w (self, tr))
           = Raise (DistutilsOptionError msg paths))
    /\ final_trace (generate_py_protobufs.run_command w (self, tr)) = tr.
Proof.
  intros w self tr p Hin Hbad.
  destruct (finalize_options_checks_search_paths w self tr p Hin Hbad)
    as (msg & paths & self' & H).
  assert (H1 : generate_py_protobufs.finalize_options w (self, tr)
               = (Raise (DistutilsOptionError msg paths), (self', tr)))
    by (apply bind_raised; exact H).
  assert (H2 : generate_py_protobufs.run_command w (self, tr)
               = (Raise (DistutilsOptionError msg paths), (self', tr)))
    by (apply bind_raised; exact H1).
  unfold result, final_trace. rewrite H, H1, H2. cbn [fst snd].
  split; [| reflexivity].
  exists msg, paths. repeat split.
Qed.

Lemma run_command_rejects_missing_search_path_witness :
  final_trace (generate_py_protobufs.run_command
                 example_world (missing_path_command, []))
  = [].
Proof.
  apply (run_command_rejects_missing_search_path
           example_world missing_path_command [] "missing");
    [cbv; right; left; reflexivity | reflexivity].
Defined.

(** * The command line: [run_protoc] *)

(** The argument list [run_protoc] spawns, in terms of the command object
    it is called on. *)
Lemma run_protoc_trace :
  forall (w : World) (self : Command) (tr : list event)
         (args : list string) (root : string) (files : list string)
         (exe : string),
    proto_root_path self = Some root ->
    proto_files self = Some files ->
    executable w self = Some exe ->
    final_trace (ProtocCommandBase.run_protoc w args (self, tr))
    = (tr ++ [Spawn (exe :: map proto_path_flag (root :: proto_paths self)
                         ++ args ++ files)])%list.
Proof.
  intros w self tr args root files exe Hroot Hfiles Hexe.
  unfold executable in Hexe.
  unfold ProtocCommandBase.run_protoc, final_trace, bind, get_self, modify,
    ret, raise, spawn, emit.
  cbn [fst snd]. rewrite Hroot.
  destruct (protoc self) as [exe'|] eqn:Hprotoc; cbn [fst snd].
  - injection Hexe as ->. rewrite Hfiles, Hprotoc.
    now destruct (exit_status w _ =? 0)%nat.
  - project_state. rewrite Hfiles, Hexe.
    now destruct (exit_status w _ =? 0)%nat.
Qed.

(** What a finalization that returns leaves in the command object. *)
Lemma finalize_options_returns :
  forall (w : World) (self : Command) (tr : list event)
         (self1 : Command) (tr1 : list event),
    ProtocCommandBase.finalize_options w (self, tr) = (Ok tt, (self1, tr1)) ->
    proto_paths self1 = (effective_include_dirs w self ++ proto_paths self)%list
    /\ extra_proto_paths self1 = extra_proto_paths self
    /\ output_dir self1 = output_dir self
    /\ (exists root, proto_root_path self1 = Some root)
    /\ (exists files, proto_files self1 = Some files).
Proof.
  intros w self tr self1 tr1 H.
  unfold effective_include_dirs.
  unfold_finalize H.
  repeat (case_step H;
          repeat match goal with
                 | E : include_dirs self = _ |- _ => rewrite E
                 | E : build_ext_include_dirs w = _ |- _ => rewrite E
                 end).
  all: try discriminate H.
  all: injection H as <- <-; project_state.
  all: repeat split; eauto.
Qed.

(** C4.  After [generate_py_protobufs] has finalized its options,
    [run_protoc] spawns the executable with: one [--proto_path=] flag for
    the root path, then one for each search path in the order of the
    candidate list (include directories, [proto_paths],
    [extra_proto_paths]), then the flags of the caller, then
    [proto_files]; and [run] calls it with the one flag
    [--python_out=<output_dir>]. *)
Theorem run_protoc_argument_list :
  forall (w : World) (self : Command) (tr : list event)
         (self1 : Command) (tr1 : list event) (exe : string),
    generate_py_protobufs.finalize_options w (self, tr)
    = (Ok tt, (self1, tr1)) ->
    executable w self1 = Some exe ->
    exists root files,
      proto_root_path self1 = Some root
      /\ proto_files self1 = Some files
      /\ (forall args,
             final_trace (ProtocCommandBase.run_protoc w args (self1, tr1))
             = (tr1 ++ [Spawn (exe :: proto_path_flag root
                                   :: map proto_path_flag (search_paths w self)
                                   ++ args ++ files)])%list)
      /\ final_trace (generate_py_protobufs.run w (self1, tr1))
         = (tr1 ++ [Spawn (exe :: proto_path_flag root
                               :: map proto_path_flag (search_paths w self)
                               ++ [("--python_out=" ++ output_dir self)%string]
                               ++ files)])%list.
Proof.
  intros w self tr self1 tr1 exe H Hexe.
  unfold generate_py_protobufs.finalize_options in H.
  destruct (ProtocCommandBase.finalize_options w (self, tr))
    as [res [self0 tr0]] eqn:H0.
  destruct res as [[]| e |];
    [| rewrite (bind_raised _ _ _ _ _ H0) in H; discriminate H
     | rewrite (bind_unmodelled _ _ _ _ H0) in H; discriminate H].
  rewrite (bind_returned _ _ _ _ _ H0) in H.
  destruct (finalize_options_returns w self tr self0 tr0 H0)
    as (Hpaths & Hextra & Hout & [root Hroot] & [files Hfiles]).
  unfold ensure_string_list, ensure_dirname, modify, get_self, ret, raise,
    bind in H.
  cbn [fst snd] in H. project_state.
  destruct (os_path_isdir (fs w) (output_dir self0)); cbv beta iota in H;
    [| discriminate H].
  injection H as <- <-.
  assert (Hsearch : proto_paths
                      (with_proto_paths
                         (proto_paths self0 ++ extra_proto_paths self0) self0)
                    = search_paths w self).
  { cbn [proto_paths with_proto_paths]. unfold search_paths.
    now rewrite Hpaths, Hextra, <- app_assoc. }
  exists root, files. repeat split.
  - exact Hroot.
  - exact Hfiles.
  - intros args.
    rewrite (run_protoc_trace
               w (with_proto_paths
                    (proto_paths self0 ++ extra_proto_paths self0) self0)
               tr0 args root files exe Hroot Hfiles Hexe).
    now rewrite Hsearch.
  - unfold generate_py_protobufs.run.
    rewrite (bind_returned get_self _ _ _ _ eq_refl). cbn [fst].
    rewrite (run_protoc_trace
               w (with_proto_paths
                    (proto_paths self0 ++ extra_proto_paths self0) self0)
               tr0 _ root files exe Hroot Hfiles Hexe).
    rewrite Hsearch. cbn [output_dir with_proto_paths]. now rewrite Hout.
Qed.

Lemma run_protoc_argument_list_witness :
  exists root files,
    final_trace
      (generate_py_protobufs.run
         example_world
         (snd (generate_py_protobufs.finalize_options
                 example_world (example_command, []))))
    = (snd (snd (generate_py_protobufs.finalize_options
                   example_world (example_command, [])))
         ++ [Spawn ("/usr/bin/protoc" :: proto_path_flag root
                      :: map proto_path_flag
                             (search_paths example_world example_command)
                      ++ [("--python_out=" ++ output_dir example_command)%string]
                      ++ files)])%list.
Proof.
  destruct (run_protoc_argument_list
              example_world example_command []
              (fst (snd (generate_py_protobufs.finalize_options
                           example_world (example_command, []))))
              (snd (snd (generate_py_protobufs.finalize_options
                           example_world (example_command, []))))
              "/usr/bin/protoc" eq_refl eq_refl)
    as (root & files & _ & _ & _ & H).
  exists root, files. exact H.
Defined.

(** * How deep [recurse] goes *)

(** X1.  With [recurse] on, [find_proto_files] globs the visible [.proto]
    entries of the source directory, then those of its visible
    subdirectories, and nothing below: the [**] of its second pattern is
    globbed without [recursive=True].  The source directory is one whose
    name holds no glob metacharacter. *)
Theorem find_proto_files_recurse_one_level :
  forall (w : World) (self : Command) (s root : string),
    source_dir self = Some s ->
    proto_root_path self = Some root ->
    recurse self = Some true ->
    glob.has_magic s = false ->
    let d := listed_dir s in
    ProtocCommandBase.find_proto_files w self
    = Ok (map (ProtocCommandBase.relative_to root)
              (proto_children (fs w) d
               ++ flat_map (proto_children (fs w)) (subdirs (fs w) d))%list).
Proof.
  intros w self s root Hs Hroot Hrec Hmagic d.
  unfold ProtocCommandBase.find_proto_files.
  rewrite Hs, (glob_proto_files_spec w s _ Hmagic), Hrec, Hroot.
  fold d. now destruct (_ ++ _)%list.
Qed.

Lemma find_proto_files_recurse_one_level_witness :
  ProtocCommandBase.find_proto_files
    example_world
    (with_recurse (Some true)
       (with_proto_root_path (Some "a/b") example_command))
  = Ok ["c/top.proto"; "c/dir.proto"; "c/d/foo.proto"; "c/dir.proto/in.proto"].
Proof.
  rewrite (find_proto_files_recurse_one_level
             example_world
             (with_recurse (Some true)
                (with_proto_root_path (Some "a/b") example_command))
             "a/b/c" "a/b" eq_refl eq_refl eq_refl eq_refl).
  reflexivity.
Defined.

(** * What [finalize_options] does to the outside and to the options *)

(** X2.  Whatever the options and however it ends, [finalize_options]
    spawns nothing: it adds to the trace at most the announcement of a
    computed root, followed by at most the warning that no file was
    found. *)
Theorem finalize_options_trace :
  forall (w : World) (self : Command) (tr : list event),
    exists announced warned,
      final_trace (ProtocCommandBase.finalize_options w (self, tr))
      = (tr ++ announced ++ warned)%list
      /\ (announced = [] \/ exists root, announced = [root_announcement root])
      /\ (warned = [] \/ exists s, warned = [no_files_warning s]).
Proof.
  intros w self tr.
  destruct (ProtocCommandBase.finalize_options w (self, tr))
    as [res [self' tr']] eqn:H.
  unfold final_trace. cbn [fst snd].
  unfold_finalize H.
  repeat case_step H.
  all: injection H as <- <- <-.
  all: first
         [ exists [], []; split; [now rewrite app_nil_r|]; split; now left
         | eexists [_], []; split; [now rewrite app_nil_r|]; split;
           [right; eexists; reflexivity | now left]
         | eexists [], [_]; split; [reflexivity|]; split;
           [now left | right; eexists; reflexivity]
         | eexists [_], [_]; split; [now rewrite <- app_assoc|]; split;
           right; eexists; reflexivity ].
Qed.

(** X3.  [finalize_options] writes defaults only where the scalar options
    are concerned: however it ends, the source directory and the output
    directory are as they were, and [proto_root_path], [proto_files],
    [recurse] and [protoc] keep the value they were set to.  With
    [proto_files] set, no warning is given: the trace grows by the
    announcement of a computed root at most. *)
Theorem finalize_options_keeps_set_options :
  forall (w : World) (self : Command) (tr : list event),
    let out := ProtocCommandBase.finalize_options w (self, tr) in
    let self' := final_self out in
    source_dir self' = source_dir self
    /\ output_dir self' = output_dir self
    /\ (forall v, proto_root_path self = Some v ->
                  proto_root_path self' = Some v)
    /\ (forall v, recurse self = Some v -> recurse self' = Some v)
    /\ (forall v, protoc self = Some v -> protoc self' = Some v)
    /\ (forall v, proto_files self = Some v ->
                  proto_files self' = Some v
                  /\ exists announced,
                      final_trace out = (tr ++ announced)%list
                      /\ (announced = []
                          \/ exists root, announced = [root_announcement root])).
Proof.
  intros w self tr out self'. subst self' out.
  destruct (ProtocCommandBase.finalize_options w (self, tr))
    as [res [self' tr']] eqn:H.
  unfold final_self, final_trace. cbn [fst snd].
  unfold_finalize H.
  repeat case_step H.
  all: injection H as <- <- <-; project_state.
  all: repeat match goal with
              | |- _ /\ _ => split
              end; try reflexivity; try congruence.
  all: intros v Hv; try congruence.
  all: split; [congruence|].
  all: first [ exists []; split; [now rewrite app_nil_r | now left]
             | eexists [_]; split;
               [reflexivity | right; eexists; reflexivity] ].
Qed.

(** [find_proto_files] reads three options only. *)
Lemma find_proto_files_ext (w : World) (a b : Command) :
  source_dir a = source_dir b ->
  recurse a = recurse b ->
  proto_root_path a = proto_root_path b ->
  ProtocCommandBase.find_proto_files w a
  = ProtocCommandBase.find_proto_files w b.
Proof.
  intros H1 H2 H3. unfold ProtocCommandBase.find_proto_files.
  now rewrite H1, H2, H3.
Qed.

(** All that a finalization that returns has checked, set and said. *)
Lemma finalize_options_success :
  forall (w : World) (self : Command) (tr : list event)
         (self1 : Command) (tr1 : list event),
    ProtocCommandBase.finalize_options w (self, tr) = (Ok tt, (self1, tr1)) ->
    exists s root files,
      source_dir self = Some s
      /\ os_path_isdir (fs w) s = true
      /\ os_path_isdir (fs w) (output_dir self) = true
      /\ (forall p, In p (search_paths w self) ->
                    ProtocCommandBase.invalid_proto_path w p = false)
      /\ proto_root_path self1 = Some root
      /\ match proto_root_path self with
         | Some r => r = root
         | None =>
             fold_left ProtocCommandBase.root_step (search_paths w self)
                       (os_path.normpath s) = root
         end
      /\ os_path_isdir (fs w) root = true
      /\ startswith s root = true
      /\ recurse self1 = match recurse self with
                         | Some b => Some b
                         | None => Some true
                         end
      /\ proto_files self1 = Some files
      /\ (proto_files self = None ->
          ProtocCommandBase.find_proto_files w self1 = Ok files)
      /\ protoc self1 = match protoc self with
                        | Some exe => Some exe
                        | None => getenv_PROTOC w
                        end
      /\ tr1 = (tr
                ++ match proto_root_path self with
                   | Some _ => []
                   | None => if root =? s then [] else [root_announcement root]
                   end
                ++ match proto_files self, files with
                   | None, [] => [no_files_warning s]
                   | _, _ => []
                   end)%list.
Proof.
  intros w self tr self1 tr1 H.
  unfold search_paths, effective_include_dirs.
  unfold_finalize H.
  repeat (case_step H;
          repeat match goal with
                 | E : include_dirs self = _ |- _ => rewrite E
                 | E : build_ext_include_dirs w = _ |- _ => rewrite E
                 | E : proto_root_path self = _ |- _ => rewrite E
                 | E : proto_files self = _ |- _ => rewrite E
                 | E : recurse self = _ |- _ => rewrite E
                 | E : protoc self = _ |- _ => rewrite E
                 end).
  all: try discriminate H.
  all: injection H as <- <-; project_state.
  all: rewrite ?negb_false_iff, ?negb_true_iff in *.
  all: do 3 eexists.
  all: repeat match goal with
              | |- _ /\ _ => split
              end.
  all: try reflexivity; try eassumption.
  all: try (intros Hnone; try discriminate Hnone;
            match goal with
            | E : ProtocCommandBase.find_proto_files _ _ = Ok _ |- _ =>
                rewrite <- E; apply find_proto_files_ext; reflexivity
            end).
  all: try (intros p Hin; rewrite !in_app_iff in Hin;
            destruct Hin as [Hin | [Hin | Hin]];
            try solve [destruct Hin];
            match goal with
            | E : List.filter _ ?l = [] |- _ =>
                apply (filter_nil_In _ l p E); rewrite ?in_app_iff;
                  solve [auto]
            end).
  all: try (rewrite app_assoc; reflexivity).
  all: unfold root_announcement, no_files_warning;
    repeat match goal with
           | E : (_ =? _) = _ |- _ => rewrite E
           end;
    cbn [app]; rewrite ?app_nil_r, <- ?app_assoc; try reflexivity.
Qed.

(** X4.  A finalization that returns has checked everything it passes on:
    the source directory, the output directory and the root path are
    directories on disk, every search path (include directories,
    [proto_paths], [extra_proto_paths]) passed the check of
    [ensure_proto_path_list], and the source directory begins with the
    root path.  The root path is the one given, else the one computed
    with the include directories first among the candidates; [recurse]
    defaults to [True] and [protoc] to the environment variable. *)
Theorem finalize_options_postconditions :
  forall (w : World) (self : Command) (tr : list event),
    let out := ProtocCommandBase.finalize_options w (self, tr) in
    result out = Ok tt ->
    exists s root,
      source_dir self = Some s
      /\ os_path_isdir (fs w) s = true
      /\ os_path_isdir (fs w) (output_dir self) = true
      /\ (forall p, In p (search_paths w self) ->
                    ProtocCommandBase.invalid_proto_path w p = false)
      /\ proto_root_path (final_self out) = Some root
      /\ match proto_root_path self with
         | Some r => r = root
         | None =>
             fold_left ProtocCommandBase.root_step (search_paths w self)
                       (os_path.normpath s) = root
         end
      /\ os_path_isdir (fs w) root = true
      /\ startswith s root = true
      /\ recurse (final_self out) = match recurse self with
                                    | Some b => Some b
                                    | None => Some true
                                    end
      /\ protoc (final_self out) = match protoc self with
                                   | Some exe => Some exe
                                   | None => getenv_PROTOC w
                                   end.
Proof.
  intros w self tr out. subst out.
  destruct (ProtocCommandBase.finalize_options w (self, tr))
    as [res [self1 tr1]] eqn:H.
  unfold result, final_self. cbn [fst snd]. intros ->.
  destruct (finalize_options_success w self tr self1 tr1 H)
    as (s & root & files & H1 & H2 & H3 & H4 & H5 & H6 & H7 & H8 & H9
        & _ & _ & H12 & _).
  exists s, root. repeat split; assumption.
Qed.

Lemma finalize_options_postconditions_witness :
  exists s root,
    source_dir example_command = Some s
    /\ proto_root_path
         (final_self (ProtocCommandBase.finalize_options
                        example_world (example_command, [])))
       = Some root
    /\ startswith s root = true.
Proof.
  destruct (finalize_options_postconditions
              example_world example_command [] eq_refl)
    as (s & root & H1 & _ & _ & _ & H5 & _ & _ & H8 & _).
  exists s, root. repeat split; assumption.
Defined.

(** X5.  What a finalization that returns has said: the announcement of
    the root path when it was computed and is not the source directory
    as spelled, then the warning when it looked for the files itself and
    found none; nothing else, and nothing when both were given. *)
Theorem finalize_options_messages :
  forall (w : World) (self : Command) (tr : list event)
         (s root : string) (files : list string),
    let out := ProtocCommandBase.finalize_options w (self, tr) in
    result out = Ok tt ->
    source_dir self = Some s ->
    proto_root_path (final_self out) = Some root ->
    proto_files (final_self out) = Some files ->
    final_trace out
    = (tr
       ++ match proto_root_path self with
          | Some _ => []
          | None => if root =? s then [] else [root_announcement root]
          end
       ++ match proto_files self, files with
          | None, [] => [no_files_warning s]
          | _, _ => []
          end)%list.
Proof.
  intros w self tr s root files out. subst out.
  destruct (ProtocCommandBase.finalize_options w (self, tr))
    as [res [self1 tr1]] eqn:H.
  unfold result, final_self, final_trace. cbn [fst snd].
  intros -> Hs Hroot Hfiles.
  destruct (finalize_options_success w self tr self1 tr1 H)
    as (s' & root' & files' & H1 & _ & _ & _ & H5 & _ & _ & _ & _ & H10
        & _ & _ & H13).
  rewrite H1 in Hs. injection Hs as <-.
  rewrite H5 in Hroot. injection Hroot as <-.
  rewrite H10 in Hfiles. injection Hfiles as <-.
  exact H13.
Qed.

Lemma finalize_options_messages_witness :
  final_trace (ProtocCommandBase.finalize_options
                 example_world (example_command, []))
  = [root_announcement "a/b"].
Proof.
  rewrite (finalize_options_messages
             example_world example_command [] "a/b/c" "a/b"
             ["c/top.proto"; "c/dir.proto"; "c/d/foo.proto";
              "c/dir.proto/in.proto"]
             eq_refl eq_refl eq_refl eq_refl).
  reflexivity.
Defined.

(** * Source directories that are not spelled as [normpath] spells them *)

(** With no candidate that is a prefix, the loop of
    [compute_proto_root_path] leaves the normalized source directory. *)
Lemma fold_root_step_no_match (S0 : string) (cands : list string) :
  (forall c, In c cands ->
             startswith S0 (os_path.normpath c) = false) ->
  fold_left ProtocCommandBase.root_step cands S0 = S0.
Proof.
  intros Hnone.
  destruct (fold_root_step_spec S0 cands S0 (startswith_refl S0))
    as (H1 & [E | Hin] & _); [exact E|].
  apply in_map_iff in Hin. destruct Hin as (c & Hc & Hin).
  cbv zeta in H1. rewrite <- Hc, (Hnone c Hin) in H1. discriminate.
Qed.

(** X6.  The root path is computed from the normalized source directory
    but compared with the source directory as it is spelled.  So when the
    root path is left to be computed, no search path is a prefix of the
    normalized source directory, and the source directory does not begin
    with its own normalization (as [./protos] does not begin with
    [protos]), [finalize_options] raises a [DistutilsOptionError]. *)
Theorem finalize_options_rejects_unnormalized_source :
  forall (w : World) (self : Command) (tr : list event) (s : string),
    source_dir self = Some s ->
    proto_root_path self = None ->
    (forall c, In c (search_paths w self) ->
               startswith (os_path.normpath s) (os_path.normpath c) = false) ->
    startswith s (os_path.normpath s) = false ->
    exists msg paths,
      result (ProtocCommandBase.finalize_options w (self, tr))
      = Raise (DistutilsOptionError msg paths).
Proof.
  intros w self tr s Hs Hroot Hnone Hpre.
  destruct (ProtocCommandBase.finalize_options w (self, tr))
    as [res [self1 tr1]] eqn:H.
  unfold result. cbn [fst].
  unfold search_paths, effective_include_dirs in Hnone.
  unfold_finalize H. rewrite ?Hs, ?Hroot in H.
  repeat (case_step H; rewrite ?Hs, ?Hroot in H;
          repeat match goal with
                 | E : include_dirs self = _ |- _ => rewrite E in Hnone
                 | E : build_ext_include_dirs w = _ |- _ =>
                     rewrite E in Hnone
                 end;
          cbn -[append startswith ProtocCommandBase.find_proto_files
                fold_left List.filter] in H).
  all: try solve [injection H as <- <- <-; eauto].
  all: exfalso; clear H.
  all: match goal with
       | E : negb (startswith _ (fold_left _ ?l ?n)) = false,
         P : startswith _ _ = false |- _ =>
           rewrite (fold_root_step_no_match n l) in E;
             [rewrite P in E; discriminate E |]
       end.
  all: intros c Hin; apply Hnone; rewrite ?in_app_iff in *;
    cbn [In] in *; tauto.
Qed.

Lemma finalize_options_rejects_unnormalized_source_witness :
  exists msg paths,
    result (ProtocCommandBase.finalize_options
              example_world (dotted_command, []))
    = Raise (DistutilsOptionError msg paths).
Proof.
  apply (finalize_options_rejects_unnormalized_source
           example_world dotted_command [] "./ab" eq_refl eq_refl);
    [intros c [] | reflexivity].
Defined.

(** * Errors *)

(** X7.  The paths a [DistutilsOptionError] of [finalize_options] carries
    are entries of the search paths that failed the check of
    [ensure_proto_path_list]: the error never blames a valid entry. *)
Theorem finalize_options_blames_invalid_paths :
  forall (w : World) (self : Command) (tr : list event)
         (msg : string) (paths : list string) (p : string),
    result (ProtocCommandBase.finalize_options w (self, tr))
    = Raise (DistutilsOptionError msg paths) ->
    In p paths ->
    In p (search_paths w self)
    /\ ProtocCommandBase.invalid_proto_path w p = true.
Proof.
  intros w self tr msg paths p Hres Hp.
  destruct (ProtocCommandBase.finalize_options w (self, tr))
    as [res [self1 tr1]] eqn:H.
  unfold result in Hres. cbn [fst] in Hres. subst res.
  unfold search_paths, effective_include_dirs.
  unfold_finalize H.
  repeat (case_step H;
          repeat match goal with
                 | E : include_dirs self = _ |- _ => rewrite E
                 | E : build_ext_include_dirs w = _ |- _ => rewrite E
                 end).
  all: try discriminate H.
  all: try match goal with
           | E : ProtocCommandBase.find_proto_files _ _ = Raise _ |- _ =>
               apply find_proto_files_raise in E; subst; discriminate H
           end.
  all: injection H as <- <- <- <-.
  all: try solve [destruct Hp].
  all: match goal with
       | E : List.filter _ _ = _ :: _ |- _ => rewrite <- E in Hp
       end.
  all: apply filter_In in Hp; destruct Hp as [Hin Hbad];
    split; [| exact Hbad].
  all: rewrite ?in_app_iff in *; cbn [In] in *; tauto.
Qed.

Lemma finalize_options_blames_invalid_paths_witness :
  In "missing" (search_paths example_world missing_path_command)
  /\ ProtocCommandBase.invalid_proto_path example_world "missing" = true.
Proof.
  apply (finalize_options_blames_invalid_paths
           example_world missing_path_command []
           "invalid proto_paths entry" ["missing"] "missing");
    [reflexivity | now left].
Defined.

(** * [generate_py_protobufs] over [ProtocCommandBase] *)

(** The [finalize_options] of [generate_py_protobufs] in terms of that of
    the base class. *)
Lemma generate_finalize_options_eval :
  forall (w : World) (self : Command) (tr : list event),
    let base := ProtocCommandBase.finalize_options w (self, tr) in
    let sub := generate_py_protobufs.finalize_options w (self, tr) in
    result sub = result base
    /\ final_trace sub = final_trace base
    /\ match result base with
       | Ok _ =>
           final_self sub
           = with_proto_paths
               (proto_paths (final_self base)
                ++ extra_proto_paths (final_self base))%list
               (final_self base)
           /\ proto_paths (final_self sub) = search_paths w self
       | _ => final_self sub = final_self base
       end.
Proof.
  intros w self tr base sub. subst base sub.
  unfold generate_py_protobufs.finalize_options.
  destruct (ProtocCommandBase.finalize_options w (self, tr))
    as [res [self0 tr0]] eqn:H.
  destruct res as [[]| e |].
  - rewrite (bind_returned _ _ _ _ _ H).
    destruct (finalize_options_success w self tr self0 tr0 H)
      as (s & root & files & _ & _ & Hout & _).
    destruct (finalize_options_returns w self tr self0 tr0 H)
      as (Hpaths & Hextra & Hout' & _).
    unfold ensure_string_list, ensure_dirname, modify, get_self, ret, raise,
      bind, result, final_self, final_trace.
    cbn [fst snd]. cbn [output_dir with_proto_paths].
    rewrite Hout', Hout. cbn [fst snd].
    repeat split. cbn [proto_paths with_proto_paths].
    unfold search_paths. now rewrite Hpaths, Hextra, <- app_assoc.
  - rewrite (bind_raised _ _ _ _ _ H). repeat split.
  - rewrite (bind_unmodelled _ _ _ _ H). repeat split.
Qed.

(** X8.  [generate_py_protobufs.finalize_options] ends as the
    [finalize_options] of the base class does, with the same result and
    the same trace: its own check of [output_dir] never fails, since the
    base class has made it.  When the base class returns, the extra
    search paths are appended to [proto_paths], which then is the whole
    candidate list; otherwise the options are as the base class left
    them. *)
Theorem generate_finalize_options_extends_base :
  forall (w : World) (self : Command) (tr : list event),
    let base := ProtocCommandBase.finalize_options w (self, tr) in
    let sub := generate_py_protobufs.finalize_options w (self, tr) in
    result sub = result base
    /\ final_trace sub = final_trace base
    /\ match result base with
       | Ok _ =>
           final_self sub
           = with_proto_paths
               (proto_paths (final_self base)
                ++ extra_proto_paths (final_self base))%list
               (final_self base)
           /\ proto_paths (final_self sub) = search_paths w self
       | _ => final_self sub = final_self base
       end.
Proof. exact generate_finalize_options_eval. Qed.

(** A finalization of [generate_py_protobufs] that returns comes from one
    of the base class. *)
Lemma generate_finalize_options_inv :
  forall (w : World) (self : Command) (tr : list event)
         (self1 : Command) (tr1 : list event),
    generate_py_protobufs.finalize_options w (self, tr)
    = (Ok tt, (self1, tr1)) ->
    exists self0,
      ProtocCommandBase.finalize_options w (self, tr) = (Ok tt, (self0, tr1))
      /\ self1 = with_proto_paths
                   (proto_paths self0 ++ extra_proto_paths self0)%list self0.
Proof.
  intros w self tr self1 tr1 H.
  unfold generate_py_protobufs.finalize_options in H.
  destruct (ProtocCommandBase.finalize_options w (self, tr))
    as [res [self0 tr0]] eqn:H0.
  destruct res as [[]| e |];
    [| rewrite (bind_raised _ _ _ _ _ H0) in H; discriminate H
     | rewrite (bind_unmodelled _ _ _ _ H0) in H; discriminate H].
  rewrite (bind_returned _ _ _ _ _ H0) in H.
  unfold ensure_string_list, ensure_dirname, modify, get_self, ret, raise,
    bind in H.
  cbn [fst snd] in H.
  destruct (os_path_isdir (fs w) _); cbv beta iota in H; [| discriminate H].
  injection H as <- <-. exists self0. split; reflexivity.
Qed.

(** * Running the compiler: [run_protoc] *)

(** What [run_protoc] does on a command that has a root path and a file
    list. *)
Lemma run_protoc_eval :
  forall (w : World) (self : Command) (tr : list event)
         (args : list string) (root : string) (files : list string),
    proto_root_path self = Some root ->
    proto_files self = Some files ->
    let self' := match protoc self with
                 | Some _ => self
                 | None => with_protoc (find_executable_protoc w) self
                 end in
    ProtocCommandBase.run_protoc w args (self, tr)
    = match executable w self with
      | Some exe =>
          let argv := (exe :: map proto_path_flag (root :: proto_paths self)
                           ++ args ++ files)%list in
          (if (exit_status w argv =? 0)%nat then Ok tt
           else Raise (DistutilsExecError "command failed"),
           (self', (tr ++ [Spawn argv])%list))
      | None => (Raise TypeError, (self', tr))
      end.
Proof.
  intros w self tr args root files Hroot Hfiles self'. subst self'.
  unfold executable.
  unfold ProtocCommandBase.run_protoc, bind, get_self, modify,
    ret, raise, spawn, emit.
  cbn [fst snd]. rewrite Hroot.
  destruct (protoc self) as [exe|] eqn:Hprotoc; cbn [fst snd].
  - rewrite Hfiles, Hprotoc. unfold proto_path_flag.
    now destruct (exit_status w _ =? 0)%nat.
  - project_state. rewrite Hfiles.
    destruct (find_executable_protoc w) as [exe|]; [| reflexivity].
    unfold proto_path_flag. now destruct (exit_status w _ =? 0)%nat.
Qed.

(** X9.  On a command with a root path, a file list and an executable,
    [run_protoc] spawns the compiler once, and returns exactly when the
    exit status is zero; any other exit status is a
    [DistutilsExecError]. *)
Theorem run_protoc_exit_status :
  forall (w : World) (self : Command) (tr : list event)
         (args : list string) (root : string) (files : list string)
         (exe : string),
    proto_root_path self = Some root ->
    proto_files self = Some files ->
    executable w self = Some exe ->
    let argv := (exe :: map proto_path_flag (root :: proto_paths self)
                     ++ args ++ files)%list in
    let out := ProtocCommandBase.run_protoc w args (self, tr) in
    final_trace out = (tr ++ [Spawn argv])%list
    /\ (exit_status w argv = 0 -> result out = Ok tt)
    /\ (exit_status w argv <> 0 ->
        exists msg, result out = Raise (DistutilsExecError msg)).
Proof.
  intros w self tr args root files exe Hroot Hfiles Hexe argv out.
  subst out.
  rewrite (run_protoc_eval w self tr args root files Hroot Hfiles), Hexe.
  cbv zeta. fold argv. unfold final_trace, result. cbn [fst snd].
  repeat split.
  - intros ->. reflexivity.
  - intros Hne. apply Nat.eqb_neq in Hne. rewrite Hne. eauto.
Qed.

Lemma run_protoc_exit_status_witness :
  result (ProtocCommandBase.run_protoc
            example_world ["--python_out=."]
            (with_protoc (Some "protoc")
               (with_proto_files (Some ["c/top.proto"])
                  (with_proto_root_path (Some "a/b") example_command)),
             []))
  = Ok tt.
Proof.
  apply (run_protoc_exit_status
           example_world
           (with_protoc (Some "protoc")
              (with_proto_files (Some ["c/top.proto"])
                 (with_proto_root_path (Some "a/b") example_command)))
           [] ["--python_out=."] "a/b" ["c/top.proto"] "protoc"
           eq_refl eq_refl eq_refl).
  reflexivity.
Defined.

(** X10.  [run_protoc] spawns nothing on a command that is not ready: when
    the root path or the file list is unset (the command was not
    finalized), or when no executable is set and none is found on the
    search path, it raises a [TypeError] and the trace is as it was. *)
Theorem run_protoc_needs_finalized_command :
  forall (w : World) (self : Command) (tr : list event) (args : list string),
    proto_root_path self = None
    \/ proto_files self = None
    \/ executable w self = None ->
    let out := ProtocCommandBase.run_protoc w args (self, tr) in
    result out = Raise TypeError /\ final_trace out = tr.
Proof.
  intros w self tr args H out. subst out.
  destruct (proto_root_path self) as [root|] eqn:Hroot.
  - destruct (proto_files self) as [files|] eqn:Hfiles.
    + destruct H as [H | [H | H]]; try discriminate H.
      rewrite (run_protoc_eval w self tr args root files Hroot Hfiles), H.
      split; reflexivity.
    + unfold ProtocCommandBase.run_protoc, bind, get_self, modify, ret,
        raise, result, final_trace.
      cbn [fst snd]. rewrite Hroot.
      destruct (protoc self); cbn [fst snd]; project_state;
        rewrite Hfiles; split; reflexivity.
  - unfold ProtocCommandBase.run_protoc, bind, get_self, raise, result,
      final_trace.
    cbn [fst snd]. rewrite Hroot. split; reflexivity.
Qed.

Lemma run_protoc_needs_finalized_command_witness :
  result (ProtocCommandBase.run_protoc example_world [] (example_command, []))
  = Raise TypeError.
Proof.
  apply (run_protoc_needs_finalized_command
           example_world example_command [] []).
  left. reflexivity.
Defined.

(** X11.  The executable a finalized [generate_py_protobufs] command runs
    is the [protoc] option when it is set, else the environment variable
    [PROTOC] when it is set, else the [protoc] found on the search path;
    when there is none of the three, [run] raises and spawns nothing. *)
Theorem run_executable_resolution :
  forall (w : World) (self : Command) (tr : list event)
         (self1 : Command) (tr1 : list event),
    generate_py_protobufs.finalize_options w (self, tr)
    = (Ok tt, (self1, tr1)) ->
    let out := generate_py_protobufs.run w (self1, tr1) in
    match resolved_executable w self with
    | Some exe => exists rest, final_trace out = (tr1 ++ [Spawn (exe :: rest)])%list
    | None => result out = Raise TypeError /\ final_trace out = tr1
    end.
Proof.
  intros w self tr self1 tr1 H out. subst out.
  destruct (generate_finalize_options_inv w self tr self1 tr1 H)
    as (self0 & H0 & ->).
  destruct (finalize_options_success w self tr self0 tr1 H0)
    as (s & root & files & _ & _ & _ & _ & Hroot & _ & _ & _ & _ & Hfiles
        & _ & Hprotoc & _).
  set (self1 := with_proto_paths _ self0).
  assert (Hexe : executable w self1 = resolved_executable w self).
  { unfold executable, resolved_executable, self1.
    cbn [protoc with_proto_paths]. rewrite Hprotoc.
    destruct (protoc self); [reflexivity|].
    now destruct (getenv_PROTOC w). }
  unfold generate_py_protobufs.run.
  rewrite (bind_returned get_self _ _ _ _ eq_refl). cbn [fst].
  rewrite (run_protoc_eval w self1 tr1 _ root files Hroot Hfiles), Hexe.
  destruct (resolved_executable w self) as [exe|].
  - eexists. reflexivity.
  - split; reflexivity.
Qed.

Lemma run_executable_resolution_witness :
  exists rest,
    final_trace
      (generate_py_protobufs.run
         example_world
         (snd (generate_py_protobufs.finalize_options
                 example_world (example_command, []))))
    = (snd (snd (generate_py_protobufs.finalize_options
                   example_world (example_command, [])))
         ++ [Spawn ("/usr/bin/protoc" :: rest)])%list.
Proof.
  exact (run_executable_resolution
           example_world example_command []
           (fst (snd (generate_py_protobufs.finalize_options
                        example_world (example_command, []))))
           (snd (snd (generate_py_protobufs.finalize_options
                        example_world (example_command, []))))
           eq_refl).
Defined.

(** * Search path entries: [ensure_proto_path_list] *)

Lemma startswith_char (s : string) (c : ascii) :
  startswith s (String c "")
  = match s with
    | "" => false
    | String a _ => Ascii.eqb a c
    end.
Proof. destruct s as [|a s]; [reflexivity|]. simpl. apply andb_true_r. Qed.

Lemma find_split_char_none (c : ascii) (s : string) :
  contains_char c s = false -> find_split s (String c "") = None.
Proof.
  induction s as [|a s IH]; intros H; rewrite find_split_eq, startswith_char.
  - reflexivity.
  - cbn [contains_char] in H. apply orb_false_iff in H. destruct H as [Ha Hs].
    now rewrite Ha, (IH Hs).
Qed.

Lemma find_split_char_first (c : ascii) (before after : string) :
  contains_char c before = false ->
  find_split (before ++ String c after) (String c "") = Some (before, after).
Proof.
  induction before as [|a before IH]; intros H.
  - cbn [append]. rewrite find_split_eq, startswith_char, Ascii.eqb_refl.
    reflexivity.
  - cbn [contains_char] in H. apply orb_false_iff in H. destruct H as [Ha Hs].
    change (String a before ++ String c after)
      with (String a (before ++ String c after)).
    rewrite find_split_eq, startswith_char, Ha, (IH Hs). reflexivity.
Qed.

(** X12.  How [ensure_proto_path_list] judges an entry.  An entry without
    [=] must be a directory on disk.  An entry [virtual=real] is cut at
    its first [=]: only the real path is looked at, it need only exist
    (a file will do), and the virtual path is not looked at. *)
Theorem invalid_proto_path_entries :
  forall (w : World),
    (forall p,
        contains_char "=" p = false ->
        ProtocCommandBase.invalid_proto_path w p
        = negb (os_path_isdir (fs w) p))
    /\ (forall virtual real,
           contains_char "=" virtual = false ->
           ProtocCommandBase.invalid_proto_path w (virtual ++ "=" ++ real)
           = negb (os_path_exists (fs w) real)).
Proof.
  intros w. split.
  - intros p Hp. unfold ProtocCommandBase.invalid_proto_path, partition.
    now rewrite (find_split_char_none "=" p Hp).
  - intros virtual real Hv.
    unfold ProtocCommandBase.invalid_proto_path, partition.
    change ("=" ++ real) with (String "=" real).
    now rewrite (find_split_char_first "=" virtual real Hv).
Qed.

(** A virtual path that is nowhere on disk, mapped to a file. *)
Example invalid_proto_path_virtual_file :
  ProtocCommandBase.invalid_proto_path
    example_world "google/protobuf=a/b/c/top.proto" = false
  /\ ProtocCommandBase.invalid_proto_path example_world "a/b/c/top.proto"
     = true.
Proof. split; reflexivity. Qed.

(** * More on the root path *)

(** The loop of [compute_proto_root_path] sees the candidates through
    their normalizations that are prefixes of the source directory. *)
Lemma fold_root_step_same_matches (S0 : string) (l l' : list string) :
  (forall n, startswith S0 n = true ->
             (In n (map os_path.normpath l)
              <-> In n (map os_path.normpath l'))) ->
  fold_left ProtocCommandBase.root_step l S0
  = fold_left ProtocCommandBase.root_step l' S0.
Proof.
  intros Hsame.
  destruct (fold_root_step_spec S0 l S0 (startswith_refl S0))
    as (H1 & H2 & H3 & H4).
  destruct (fold_root_step_spec S0 l' S0 (startswith_refl S0))
    as (H1' & H2' & H3' & H4').
  cbv zeta in *.
  set (r := fold_left ProtocCommandBase.root_step l S0) in *.
  set (r' := fold_left ProtocCommandBase.root_step l' S0) in *.
  apply (startswith_same_length S0); try assumption.
  apply Nat.le_antisymm.
  - destruct H2' as [E | Hin]; [rewrite E; exact H3|].
    apply H4; [| exact H1']. now apply (Hsame r' H1').
  - destruct H2 as [E | Hin]; [rewrite E; exact H3'|].
    apply H4'; [| exact H1]. now apply (Hsame r H1).
Qed.

(** X13.  The computed root depends on the candidates only through the
    set of their normalizations that are prefixes of the normalized source
    directory: candidates that are no prefix, repeated candidates,
    different spellings of one path and the order change nothing. *)
Theorem compute_proto_root_path_matching_candidates :
  forall (self self' : Command) (s : string),
    source_dir self = Some s ->
    source_dir self' = Some s ->
    (forall n,
        startswith (os_path.normpath s) n = true ->
        (In n (map os_path.normpath
                   (proto_paths self ++ extra_proto_paths self))
         <-> In n (map os_path.normpath
                       (proto_paths self' ++ extra_proto_paths self')))) ->
    ProtocCommandBase.compute_proto_root_path self
    = ProtocCommandBase.compute_proto_root_path self'.
Proof.
  intros self self' s Hs Hs' Hsame.
  unfold ProtocCommandBase.compute_proto_root_path. rewrite Hs, Hs'.
  f_equal. now apply fold_root_step_same_matches.
Qed.

Lemma compute_proto_root_path_matching_candidates_witness :
  ProtocCommandBase.compute_proto_root_path example_command
  = ProtocCommandBase.compute_proto_root_path
      (with_proto_paths ["a/b/"; "a/b"] example_command).
Proof.
  apply (compute_proto_root_path_matching_candidates
           example_command
           (with_proto_paths ["a/b/"; "a/b"] example_command)
           "a/b/c" eq_refl eq_refl).
  intros n Hn. vm_compute. split.
  - intros [<- | [<- | []]]; [now left | discriminate Hn].
  - intros [<- | [<- | []]]; now left.
Defined.

(** X14.  More search paths can only move the root up: when candidates
    are added at the end of the list, the new root is a string-prefix of
    the old one. *)
Theorem compute_proto_root_path_more_candidates :
  forall (self self' : Command) (more : list string) (root : string),
    source_dir self' = source_dir self ->
    (proto_paths self' ++ extra_proto_paths self'
     = (proto_paths self ++ extra_proto_paths self) ++ more)%list ->
    ProtocCommandBase.compute_proto_root_path self = Ok root ->
    exists root',
      ProtocCommandBase.compute_proto_root_path self' = Ok root'
      /\ startswith root root' = true.
Proof.
  intros self self' more root Hs Hl.
  unfold ProtocCommandBase.compute_proto_root_path. rewrite Hs, Hl.
  destruct (source_dir self) as [s|]; [| discriminate].
  intros [= <-]. rewrite fold_left_app.
  eexists. split; [reflexivity|].
  exact (proj1 (fold_root_step_spec _ more _ (startswith_refl _))).
Qed.

Lemma compute_proto_root_path_more_candidates_witness :
  exists root',
    ProtocCommandBase.compute_proto_root_path
      (with_proto_paths ["a/b"; "x/y"; "a"] example_command)
    = Ok root'
    /\ startswith "a/b" root' = true.
Proof.
  apply (compute_proto_root_path_more_candidates
           example_command
           (with_proto_paths ["a/b"; "x/y"; "a"] example_command)
           ["a"] "a/b"); reflexivity.
Defined.

(** * Relative file names that lead back to the files *)

(** In a tree without separators in its names, so is every node a path
    leads to. *)
Lemma wf_tree_Dir (entries : list (string * node)) :
  wf_tree (Dir entries) = true ->
  forall name child,
    In (name, child) entries ->
    has_sep name = false /\ wf_tree child = true.
Proof.
  induction entries as [|[n c] entries IH]; intros Hwf name child Hin.
  - destruct Hin.
  - cbn in Hwf. rewrite !andb_true_iff, negb_true_iff in Hwf.
    destruct Hwf as [[Hn Hc] Hrest].
    destruct Hin as [[= <- <-] | Hin]; [now split|].
    now apply IH.
Qed.

Lemma lookup_entry_In (name : string) (entries : list (string * node))
    (x : node) :
  lookup_entry name entries = Some x -> exists n, In (n, x) entries.
Proof.
  induction entries as [|[n c] entries IH]; [discriminate|].
  cbn [lookup_entry]. destruct (n =? name).
  - intros [= <-]. exists n. now left.
  - intros H. destruct (IH H) as [n' Hin]. exists n'. now right.
Qed.

Lemma walk_wf (comps : list string) :
  forall (cur : node) (up : list node) (x : node),
    wf_tree cur = true ->
    Forall (fun y => wf_tree y = true) up ->
    walk comps cur up = Some x ->
    wf_tree x = true.
Proof.
  induction comps as [|c comps IH]; intros cur up x Hcur Hup.
  - now intros [= <-].
  - cbn [walk]. destruct cur as [|entries]; [discriminate|].
    destruct ((c =? "") || (c =? ".")); [now apply IH|].
    destruct (c =? "..").
    + destruct up as [|parent up']; [now apply IH|].
      inversion Hup; subst. now apply IH.
    + destruct (lookup_entry c entries) as [y|] eqn:L; [| discriminate].
      destruct (lookup_entry_In _ _ _ L) as [n Hin].
      apply IH; [| now constructor].
      exact (proj2 (wf_tree_Dir entries Hcur n y Hin)).
Qed.

Lemma fs_of_tree_names (root : node) :
  wf_tree root = true -> names_without_sep (fs_of_tree root).
Proof.
  intros Hwf d entry. cbn [os_scandir fs_of_tree].
  destruct (resolve root d) as [[|entries]|] eqn:R; try (intros []).
  unfold resolve in R. destruct (d =? ""); [discriminate|].
  apply walk_wf in R; [| exact Hwf | constructor].
  intros Hin. apply in_map_iff in Hin.
  destruct Hin as ([n c] & <- & Hin).
  exact (proj1 (wf_tree_Dir entries R n c Hin)).
Qed.

Lemma visible_names_without_sep (fs : filesys) (d name : string)
    (dironly : bool) :
  names_without_sep fs ->
  In name (visible_names fs d dironly) -> has_sep name = false.
Proof.
  intros Hfs Hin. unfold visible_names, glob.iterdir in Hin.
  apply filter_In in Hin. destruct Hin as [Hin _].
  apply in_map_iff in Hin. destruct Hin as (entry & <- & Hin).
  apply filter_In in Hin. destruct Hin as [Hin _].
  exact (Hfs _ entry Hin).
Qed.

Lemma startswith_dir_prefix (d : string) : startswith (dir_prefix d) d = true.
Proof.
  unfold dir_prefix. destruct ((d =? "") || endswith d os_path.sep).
  - apply startswith_refl.
  - apply startswith_app.
Qed.

(** Every path [os.path.join(d, name)] of a name without separator begins
    with what [d] begins with. *)
Lemma startswith_join (d name key : string) :
  has_sep name = false ->
  startswith (dir_prefix d) key = true ->
  startswith (os_path.join d [name]) key = true.
Proof.
  intros Hname Hkey. rewrite (join_one d name Hname).
  eapply startswith_trans; [apply startswith_app | exact Hkey].
Qed.

Lemma proto_children_startswith (fs : filesys) (d key f : string) :
  names_without_sep fs ->
  startswith (dir_prefix d) key = true ->
  In f (proto_children fs d) ->
  startswith f key = true.
Proof.
  intros Hfs Hkey Hin. unfold proto_children in Hin.
  apply in_map_iff in Hin. destruct Hin as (name & <- & Hin).
  apply filter_In in Hin. destruct Hin as [Hin _].
  apply startswith_join; [| exact Hkey].
  exact (visible_names_without_sep fs d name false Hfs Hin).
Qed.

Lemma subdirs_startswith (fs : filesys) (d key sub : string) :
  names_without_sep fs ->
  startswith (dir_prefix d) key = true ->
  In sub (subdirs fs d) ->
  startswith (dir_prefix sub) key = true.
Proof.
  intros Hfs Hkey Hin. unfold subdirs in Hin.
  apply in_map_iff in Hin. destruct Hin as (name & <- & Hin).
  eapply startswith_trans; [apply startswith_dir_prefix|].
  apply startswith_join; [| exact Hkey].
  exact (visible_names_without_sep fs d name true Hfs Hin).
Qed.

(** X15.  When the source directory lies under the root path as a path
    (it is the root path, or begins with the root path and a separator),
    every file [find_proto_files] globs is renamed to what follows the
    root path and one separator at its front, so the root path, a
    separator and the new name spell the file again.  The names are those
    of a disk (no separator in a name), the root path is not empty and
    does not end with a separator, and the source directory holds no glob
    metacharacter. *)
Theorem find_proto_files_round_trip :
  forall (w : World) (self : Command) (s root : string)
         (files : list string),
    source_dir self = Some s ->
    proto_root_path self = Some root ->
    glob.has_magic s = false ->
    names_without_sep (fs w) ->
    root <> "" ->
    endswith root os_path.sep = false ->
    listed_dir s = root
    \/ startswith (listed_dir s) (root ++ os_path.sep) = true ->
    ProtocCommandBase.glob_proto_files w s (recurse self) = Some files ->
    exists rel,
      ProtocCommandBase.find_proto_files w self = Ok rel
      /\ Forall2 (fun f r => f = root ++ os_path.sep ++ r) files rel.
Proof.
  intros w self s root files Hs Hroot Hmagic Hfs Hne Hend Hunder Hglob.
  exists (map (ProtocCommandBase.relative_to root) files). split.
  { unfold ProtocCommandBase.find_proto_files.
    rewrite Hs, Hglob, Hroot. now destruct files. }
  assert (Hkey : startswith (dir_prefix (listed_dir s)) (root ++ os_path.sep)
                 = true).
  { destruct Hunder as [-> | Hunder].
    - unfold dir_prefix. rewrite Hend.
      destruct (String.eqb_spec root "") as [E | _]; [contradiction|].
      apply startswith_refl.
    - eapply startswith_trans; [apply startswith_dir_prefix | exact Hunder]. }
  assert (Hall : forall f, In f files ->
                           startswith f (root ++ os_path.sep) = true).
  { rewrite (glob_proto_files_spec w s _ Hmagic) in Hglob.
    injection Hglob as <-. intros f Hin. apply in_app_iff in Hin.
    destruct Hin as [Hin | Hin].
    - exact (proto_children_startswith _ _ _ f Hfs Hkey Hin).
    - destruct (recurse self) as [[|]|]; try destruct Hin.
      apply in_flat_map in Hin. destruct Hin as (sub & Hsub & Hin).
      apply (proto_children_startswith _ sub _ f Hfs); [| exact Hin].
      exact (subdirs_startswith _ _ _ sub Hfs Hkey Hsub). }
  clear Hglob. induction files as [|f files IH]; cbn [map]; constructor.
  - destruct (proj1 (startswith_iff _ _) (Hall f (or_introl eq_refl)))
      as [rest ->].
    unfold ProtocCommandBase.relative_to.
    rewrite partition_last_prefix. apply append_assoc.
  - apply IH. intros f' Hin. apply Hall. now right.
Qed.

Lemma find_proto_files_round_trip_witness :
  exists rel,
    ProtocCommandBase.find_proto_files
      example_world
      (with_recurse (Some true)
         (with_proto_root_path (Some "a/b") example_command))
    = Ok rel
    /\ Forall2 (fun f r => f = "a/b" ++ os_path.sep ++ r)
               ["a/b/c/top.proto"; "a/b/c/dir.proto"; "a/b/c/d/foo.proto";
                "a/b/c/dir.proto/in.proto"]
               rel.
Proof.
  apply (find_proto_files_round_trip
           example_world
           (with_recurse (Some true)
              (with_proto_root_path (Some "a/b") example_command))
           "a/b/c" "a/b"); try reflexivity.
  - apply fs_of_tree_names. reflexivity.
  - discriminate.
  - right. reflexivity.
Defined.

(** * What is globbed, and when the compiler is run *)

Lemma endswith_app (x y suf : string) :
  endswith y suf = true -> endswith (x ++ y) suf = true.
Proof.
  intros H. induction x as [|c x IH]; [exact H|].
  change (String c x ++ y) with (String c (x ++ y)).
  rewrite endswith_eq, IH. apply orb_true_r.
Qed.

Lemma endswith_join (d name suf : string) :
  endswith name suf = true -> endswith (os_path.join d [name]) suf = true.
Proof.
  intros H. unfold os_path.join. cbn [fold_left]. unfold os_path.join_step.
  destruct (startswith name os_path.sep); [exact H|].
  destruct ((d =? "") || endswith d os_path.sep).
  - now apply endswith_app.
  - apply endswith_app. now apply endswith_app.
Qed.

Lemma proto_children_extension (fs : filesys) (d f : string) :
  In f (proto_children fs d) -> endswith f ".proto" = true.
Proof.
  unfold proto_children. intros Hin. apply in_map_iff in Hin.
  destruct Hin as (name & <- & Hin). apply filter_In in Hin.
  apply endswith_join. apply Hin.
Qed.

(** X16.  Every path [find_proto_files] globs ends in [.proto], with
    [recurse] on or off, for a source directory whose name holds no glob
    metacharacter. *)
Theorem glob_proto_files_extension :
  forall (w : World) (s : string) (recurse : option bool)
         (files : list string) (f : string),
    glob.has_magic s = false ->
    ProtocCommandBase.glob_proto_files w s recurse = Some files ->
    In f files ->
    endswith f ".proto" = true.
Proof.
  intros w s recurse files f Hmagic Hglob Hin.
  rewrite (glob_proto_files_spec w s _ Hmagic) in Hglob.
  injection Hglob as <-. apply in_app_iff in Hin.
  destruct Hin as [Hin | Hin].
  - exact (proto_children_extension _ _ _ Hin).
  - destruct recurse as [[|]|]; try destruct Hin.
    apply in_flat_map in Hin. destruct Hin as (sub & _ & Hin).
    exact (proto_children_extension _ _ _ Hin).
Qed.

Lemma glob_proto_files_extension_witness :
  endswith "a/b/c/d/foo.proto" ".proto" = true.
Proof.
  apply (glob_proto_files_extension
           example_world "a/b/c" (Some true)
           ["a/b/c/top.proto"; "a/b/c/dir.proto"; "a/b/c/d/foo.proto";
            "a/b/c/dir.proto/in.proto"]
           "a/b/c/d/foo.proto" eq_refl eq_refl).
  right. right. now left.
Defined.

(** [finalize_options] spawns nothing. *)
Lemma finalize_options_no_spawn :
  forall (w : World) (self : Command) (tr : list event) (argv : list string),
    In (Spawn argv)
       (final_trace (ProtocCommandBase.finalize_options w (self, tr))) ->
    In (Spawn argv) tr.
Proof.
  intros w self tr argv.
  destruct (ProtocCommandBase.finalize_options w (self, tr))
    as [res [self' tr']] eqn:H.
  unfold final_trace. cbn [fst snd].
  unfold_finalize H.
  repeat case_step H.
  all: injection H as <- <- <-.
  all: rewrite ?in_app_iff; cbn [In]; intros Hin.
  all: repeat match goal with
              | Hin : _ \/ _ |- _ => destruct Hin as [Hin | Hin]
              end; try assumption; try discriminate; try contradiction.
Qed.

(** X17.  The compiler is run only after the options are finalized:
    [finalize_options] itself spawns nothing; when it does not return,
    the command ends as it ended and [run] is not reached; when it
    returns, [run] adds one spawned process to the trace, or none (when
    no executable is found). *)
Theorem run_command_spawns_after_finalization :
  forall (w : World) (self : Command) (tr : list event),
    let fin := generate_py_protobufs.finalize_options w (self, tr) in
    let out := generate_py_protobufs.run_command w (self, tr) in
    (forall argv, In (Spawn argv) (final_trace fin) -> In (Spawn argv) tr)
    /\ match result fin with
       | Ok _ =>
           final_trace out = final_trace fin
           \/ exists argv,
               final_trace out = (final_trace fin ++ [Spawn argv])%list
       | _ => out = fin
       end.
Proof.
  intros w self tr fin out. subst fin out. split.
  - intros argv.
    rewrite (proj1 (proj2 (generate_finalize_options_eval w self tr))).
    apply finalize_options_no_spawn.
  - unfold generate_py_protobufs.run_command.
    destruct (generate_py_protobufs.finalize_options w (self, tr))
      as [res [self1 tr1]] eqn:H.
    destruct res as [[]| e |].
    + rewrite (bind_returned _ _ _ _ _ H).
      destruct (generate_finalize_options_inv w self tr self1 tr1 H)
        as (self0 & H0 & ->).
      destruct (finalize_options_success w self tr self0 tr1 H0)
        as (s & root & files & _ & _ & _ & _ & Hroot & _ & _ & _ & _
            & Hfiles & _).
      unfold generate_py_protobufs.run.
      rewrite (bind_returned get_self _ _ _ _ eq_refl). cbn [fst].
      rewrite (run_protoc_eval
                 w (with_proto_paths
                      (proto_paths self0 ++ extra_proto_paths self0) self0)
                 tr1 _ root files Hroot Hfiles).
      unfold final_trace, result. cbn [fst snd].
      destruct (executable w _); cbn [fst snd]; [right; eauto | now left].
    + now rewrite (bind_raised _ _ _ _ _ H).
    + now rewrite (bind_unmodelled _ _ _ _ H).
Qed.

(** X18.  The base class alone does not hand the extra search paths to the
    compiler: after its [finalize_options], which takes them as candidates
    for the root path, [run_protoc] gives one [--proto_path=] flag for the
    root path and one for each include directory and each entry of
    [proto_paths], and none for [extra_proto_paths]. *)
Theorem base_run_protoc_search_path_flags :
  forall (w : World) (self : Command) (tr : list event)
         (self1 : Command) (tr1 : list event) (args : list string)
         (exe : string),
    ProtocCommandBase.finalize_options w (self, tr) = (Ok tt, (self1, tr1)) ->
    executable w self1 = Some exe ->
    exists root files,
      proto_root_path self1 = Some root
      /\ proto_files self1 = Some files
      /\ final_trace (ProtocCommandBase.run_protoc w args (self1, tr1))
         = (tr1 ++ [Spawn (exe :: proto_path_flag root
                               :: map proto_path_flag
                                      (effective_include_dirs w self
                                       ++ proto_paths self)
                               ++ args ++ files)])%list.
Proof.
  intros w self tr self1 tr1 args exe H Hexe.
  destruct (finalize_options_returns w self tr self1 tr1 H)
    as (Hpaths & _ & _ & [root Hroot] & [files Hfiles]).
  exists root, files. repeat split; try assumption.
  rewrite (run_protoc_trace w self1 tr1 args root files exe Hroot Hfiles Hexe).
  now rewrite Hpaths.
Qed.

Lemma base_run_protoc_search_path_flags_witness :
  exists root files,
    final_trace
      (ProtocCommandBase.run_protoc
         example_world ["--python_out=."]
         (snd (ProtocCommandBase.finalize_options
                 example_world
                 (with_protoc (Some "protoc") example_command, []))))
    = (snd (snd (ProtocCommandBase.finalize_options
                   example_world
                   (with_protoc (Some "protoc") example_command, [])))
         ++ [Spawn ("protoc" :: proto_path_flag root
                      :: map proto_path_flag ["a/b"; "x/y"]
                      ++ ["--python_out=."] ++ files)])%list.
Proof.
  destruct (base_run_protoc_search_path_flags
              example_world (with_protoc (Some "protoc") example_command) []
              (fst (snd (ProtocCommandBase.finalize_options
                           example_world
                           (with_protoc (Some "protoc") example_command, []))))
              (snd (snd (ProtocCommandBase.finalize_options
                           example_world
                           (with_protoc (Some "protoc") example_command, []))))
              ["--python_out=."] "protoc" eq_refl eq_refl)
    as (root & files & _ & _ & H).
  exists root, files. exact H.
Defined.

(** * Finalization without files *)

(** With nothing in the glob, [find_proto_files] returns the empty list. *)
Lemma find_proto_files_none (w : World) (self : Command) (s : string) :
  source_dir self = Some s ->
  ProtocCommandBase.glob_proto_files w s (recurse self) = Some [] ->
  ProtocCommandBase.find_proto_files w self = Ok [].
Proof.
  intros Hs Hglob. unfold ProtocCommandBase.find_proto_files.
  now rewrite Hs, Hglob.
Qed.

(** C7.  When every check of [finalize_options] passes (the source
    directory, the output directory and the root path are directories,
    the search paths are valid, the source directory begins with the root
    path), no file list was given and the glob under the source directory
    finds no file, then [finalize_options] returns normally: it stores the
    empty file list, and the last thing it does to the outside is the
    warning that no [.proto] files were found under the source directory;
    before it there is the announcement of a computed root at most.
    Nothing is raised, and nothing is spawned. *)
Theorem finalize_options_warns_without_files :
  forall (w : World) (self : Command) (tr : list event) (s : string),
    source_dir self = Some s ->
    os_path_isdir (fs w) s = true ->
    os_path_isdir (fs w) (output_dir self) = true ->
    (forall p, In p (search_paths w self) ->
               ProtocCommandBase.invalid_proto_path w p = false) ->
    os_path_isdir (fs w) (resolved_root w self s) = true ->
    startswith s (resolved_root w self s) = true ->
    proto_files self = None ->
    ProtocCommandBase.glob_proto_files w s (resolved_recurse self) = Some [] ->
    let out := ProtocCommandBase.finalize_options w (self, tr) in
    result out = Ok tt
    /\ proto_files (final_self out) = Some []
    /\ final_trace out
       = (tr
          ++ match proto_root_path self with
             | Some _ => []
             | None =>
                 if resolved_root w self s =? s then []
                 else [root_announcement (resolved_root w self s)]
             end
          ++ [no_files_warning s])%list.
Proof.
  intros w self tr s Hs Hsd Hod Hvalid Hroot Hunder Hpf Hglob out. subst out.
  destruct (ProtocCommandBase.finalize_options w (self, tr))
    as [res [self' tr']] eqn:H.
  unfold result, final_self, final_trace. cbn [fst snd].
  unfold resolved_root, resolved_recurse, search_paths,
    effective_include_dirs in *.
  unfold_finalize H. rewrite ?Hs, ?Hpf in H.
  repeat (case_step H;
          repeat match goal with
                 | E : include_dirs self = _ |- _ =>
                     progress (rewrite ?E in Hvalid, Hroot, Hunder |- * )
                 | E : build_ext_include_dirs w = _ |- _ =>
                     progress (rewrite ?E in Hvalid, Hroot, Hunder |- * )
                 | E : proto_root_path self = _ |- _ =>
                     progress (rewrite ?E in Hroot, Hunder |- * )
                 | E : recurse self = _ |- _ =>
                     progress (rewrite ?E in Hglob)
                 end;
          rewrite ?Hs, ?Hpf in H).
  all: cbn [app] in *; rewrite <- ?app_assoc in *.
  all: rewrite ?negb_true_iff, ?negb_false_iff in *.
  all: try congruence.
  all: try match goal with
           | E : List.filter _ ?l = ?x :: _ |- _ =>
               exfalso;
               assert (Hx : In x (List.filter
                                    (ProtocCommandBase.invalid_proto_path w) l))
                 by (rewrite E; now left);
               apply filter_In in Hx; destruct Hx as [Hx Hbad];
               rewrite Hvalid in Hbad;
                 [discriminate Hbad | rewrite ?in_app_iff in *; tauto]
           end.
  all: try match goal with
           | E : ProtocCommandBase.find_proto_files _ ?X = _ |- _ =>
               rewrite (find_proto_files_none w X s) in E;
                 [try discriminate E; injection E as E
                 | project_state; congruence ..]
           end.
  all: injection H as <- <- <-; project_state.
  all: split; [reflexivity | split; [reflexivity|]].
  all: unfold no_files_warning, root_announcement;
    repeat match goal with
           | E : (_ =? _) = _ |- _ => rewrite E
           end;
    cbn [app]; rewrite <- ?app_assoc; reflexivity.
Qed.

Lemma finalize_options_warns_without_files_witness :
  result (ProtocCommandBase.finalize_options example_world (empty_command, []))
  = Ok tt
  /\ proto_files
       (final_self
          (ProtocCommandBase.finalize_options example_world (empty_command, [])))
     = Some []
  /\ final_trace
       (ProtocCommandBase.finalize_options example_world (empty_command, []))
     = [no_files_warning "empty"].
Proof.
  apply (finalize_options_warns_without_files
           example_world empty_command [] "empty");
    try reflexivity.
  intros p [].
Defined.
